(** * Energy ledger: a shallow embedding of [blockchain_energy.py]

    The development follows the Python module class by class:
    [Block], [SmartContract] and [EnergyBlockchain], preceded by models of
    the library functions the module calls ([json.dumps] with
    [sort_keys=True], [float.__repr__], [hashlib.sha256], string slicing and
    repetition).

    Conventions.
    - A Python [int] is a [Z]; a Python [float] is a primitive binary64
      [float]; a Python [str] is a [string] whose characters are the code
      points below 256. A value of a transaction can also be a [str] with
      any code points ([VText]).
    - The models of the library functions are total. Python raises where a
      number is out of range: [json.dumps] raises [ValueError] for an [int]
      of more than 4300 digits, and ['0' * d] raises [OverflowError] for a
      count outside [- 2 ^ 63 .. 2 ^ 63 - 1] and [MemoryError] for a string
      that does not fit in memory. The statements that depend on it
      carry the range as a hypothesis.
    - A transaction is a Python [dict] with string keys: a [gmap string value].
    - [datetime.now().isoformat()] is an input of the operation that reads
      the clock.
    - The proof-of-work loop is unbounded: [mine_block] takes a fuel that
      bounds the number of iterations, and answers [None] when it runs out.
    - An operation that can raise answers in [result].
    - What the module prints is not modelled. *)

From Stdlib Require Import ZArith Floats Uint63 QArith Qcanon Qpower Ascii String List Lia.
From stdpp Require Import gmap strings list pretty.
Import ListNotations.

Set Warnings "-inexact-float".
Local Open Scope string_scope.

(** ** Python library models *)

Module Py.

(** *** Exceptions and results *)

Inductive exn := IndexError | TypeError | OverflowError.

(** [Diverge]: the fuel of a proof-of-work loop ran out. *)
Inductive result (A : Type) :=
| Ok (a : A)
| Raise (e : exn)
| Diverge.
Arguments Ok {A} a.
Arguments Raise {A} e.
Arguments Diverge {A}.

#[global] Instance result_ret : MRet result := @Ok.
#[global] Instance result_bind : MBind result := fun A B f m =>
  match m with
  | Ok a => f a
  | Raise e => Raise e
  | Diverge => Diverge
  end.

Fixpoint foldM {A B : Type} (f : B -> A -> result B) (b : B) (l : list A) : result B :=
  match l with
  | [] => Ok b
  | a :: l' => b' ← f b a; foldM f b' l'
  end.

(** *** Strings *)

(** [s[:d]] *)
Definition slice_to (s : string) (d : Z) : string :=
  let len := Z.of_nat (String.length s) in
  let stop := if (d <? 0)%Z then Z.max 0 (len + d) else Z.min d len in
  String.substring 0 (Z.to_nat stop) s.

(** [s * d], for a count [d] in [- 2 ^ 63 .. 2 ^ 63 - 1] and a result that
    fits in memory *)
Definition repeat (s : string) (d : Z) : string :=
  String.concat "" (replicate (Z.to_nat d) s).

(** [int.__repr__] *)
Definition int_repr (z : Z) : string := pretty z.

(** *** [float.__repr__]: the shortest decimal string that reads back as
    the same binary64 value *)

Module Float.
Local Open Scope Z_scope.

Definition pow10 (k : Z) : Z := 10 ^ Z.max k 0.

(** the least [k] from [k0] on with [N / D < 10 ^ k] *)
Fixpoint find_decpt (fuel : nat) (N D k : Z) : Z :=
  match fuel with
  | O => k
  | S f => if N * pow10 (- k) <? pow10 k * D then k else find_decpt f N D (k + 1)
  end.

(** the multiple [c * 10 ^ q] nearest to [N / D] within the rounding
    interval [lo / D .. hi / D], if there is one; of two that are equally
    near, the even one *)
Definition candidate (N D lo hi : Z) (incl : bool) (q : Z) : option Z :=
  let A := pow10 q in
  let B := pow10 (- q) in
  let d := (N * B) / (A * D) in
  let ok c :=
    if incl then (lo * B <=? c * A * D) && (c * A * D <=? hi * B)
    else (lo * B <? c * A * D) && (c * A * D <? hi * B) in
  let dist c := Z.abs (c * A * D - N * B) in
  match ok d, ok (d + 1) with
  | true, true =>
      Some (if dist d <? dist (d + 1) then d
            else if dist (d + 1) <? dist d then d + 1
            else if Z.even d then d else d + 1)
  | true, false => Some d
  | false, true => Some (d + 1)
  | false, false => None
  end.

Fixpoint shortest (fuel : nat) (N D lo hi : Z) (incl : bool) (k n : Z) : Z * Z :=
  match fuel with
  | O => (0, 0)
  | S f =>
      match candidate N D lo hi incl (k - n) with
      | Some c => (c, k - n)
      | None => shortest f N D lo hi incl k (n + 1)
      end
  end.

Fixpoint strip_zeros (fuel : nat) (c q : Z) : Z * Z :=
  match fuel with
  | O => (c, q)
  | S f =>
      if (c mod 10 =? 0) && negb (c =? 0) then strip_zeros f (c / 10) (q + 1) else (c, q)
  end.

(** digits and decimal point position of [m * 2 ^ e]: the value is
    [0.d1d2... * 10 ^ decpt] *)
Definition digits (m e : Z) : string * Z :=
  let N := if 0 <=? e then m * 2 ^ (e + 2) else 4 * m in
  let D := if 0 <=? e then 4 else 2 ^ (2 - e) in
  let U := if 0 <=? e then 2 ^ (e + 1) else 2 in
  let L := if (m =? 2 ^ 52) && (-1074 <? e) then U / 2 else U in
  let k0 := (Z.log2 N - Z.log2 D - 1) * 30103 / 100000 in
  let k := find_decpt 4 N D k0 in
  let '(c, q) := shortest 17 N D (N - L) (N + U) (Z.even m) k 1 in
  let '(c, q) := strip_zeros 20 c q in
  let ds := pretty c in
  (ds, Z.of_nat (String.length ds) + q).

Definition zeros (n : Z) : string := repeat "0" n.

(** format code [r]: exponent form when [decpt <= -4] or [decpt > 16] *)
Definition format_repr (ds : string) (decpt : Z) : string :=
  let len := Z.of_nat (String.length ds) in
  if (decpt <=? -4) || (16 <? decpt) then
    let ex := decpt - 1 in
    let mant := match ds with
                | String c EmptyString => String c EmptyString
                | String c rest => String c ("." +:+ rest)
                | EmptyString => EmptyString
                end in
    mant +:+ "e" +:+ (if ex <? 0 then "-" else "+")
         +:+ (if Z.abs ex <? 10 then "0" else "") +:+ pretty (Z.abs ex)
  else if decpt <=? 0 then "0." +:+ zeros (- decpt) +:+ ds
  else if decpt <? len then
    String.substring 0 (Z.to_nat decpt) ds +:+ "."
      +:+ String.substring (Z.to_nat decpt) (Z.to_nat (len - decpt)) ds
  else ds +:+ zeros (decpt - len) +:+ ".0".

Definition repr (x : float) : string :=
  match Prim2SF x with
  | S754_zero s => if s then "-0.0" else "0.0"
  | S754_infinity s => if s then "-inf" else "inf"
  | S754_nan => "nan"
  | S754_finite s m e =>
      let '(ds, decpt) := digits (Z.pos m) e in
      (if s then "-" else "") +:+ format_repr ds decpt
  end.

(** [float(z)]: round to nearest even; [OverflowError] when out of range *)
Definition of_int (z : Z) : result float :=
  match binary_normalize prec emax z 0 false with
  | S754_infinity _ => Raise OverflowError
  | sf => Ok (SF2Prim sf)
  end.

End Float.

(** *** [json.dumps] *)

Module Json.

Definition quote : ascii := ascii_of_nat 34.
Definition backslash : ascii := ascii_of_nat 92.

Definition hex_digit (n : nat) : ascii :=
  nth n ["0"; "1"; "2"; "3"; "4"; "5"; "6"; "7"; "8"; "9"; "a"; "b"; "c"; "d"; "e"; "f"]%char
      "0"%char.

(** [ensure_ascii=True]: everything outside [' ' .. '~'] is escaped *)
Definition escape_char (c : ascii) : string :=
  let n := nat_of_ascii c in
  if (n =? 34)%nat then String backslash (String quote "")
  else if (n =? 92)%nat then String backslash (String backslash "")
  else if (n =? 10)%nat then String backslash "n"
  else if (n =? 13)%nat then String backslash "r"
  else if (n =? 9)%nat then String backslash "t"
  else if (n =? 8)%nat then String backslash "b"
  else if (n =? 12)%nat then String backslash "f"
  else if (n <? 32)%nat || (126 <? n)%nat then
    String backslash
      ("u00" +:+ String (hex_digit (n / 16)) (String (hex_digit (n mod 16)) ""))
  else String c "".

Fixpoint escape (s : string) : string :=
  match s with
  | EmptyString => EmptyString
  | String c s' => escape_char c +:+ escape s'
  end.

Definition str (s : string) : string := String quote (escape s) +:+ String quote "".

(** the four hexadecimal digits of a code unit *)
Definition hex4 (n : Z) : string :=
  string_of_list_ascii
    (map (fun k => hex_digit (Z.to_nat ((n / 16 ^ k) mod 16))) [3; 2; 1; 0]%Z).

(** a code point: below 256 as [escape_char] has it, then four hexadecimal
    digits up to 0xffff, and a surrogate pair above *)
Definition escape_point (n : Z) : string :=
  if (n <? 256)%Z then escape_char (ascii_of_nat (Z.to_nat n))
  else if (n <? 65536)%Z then String backslash ("u" +:+ hex4 n)
  else
    let n := (n - 65536)%Z in
    let s1 := Z.lor 55296 (Z.land (Z.shiftr n 10) 1023) in
    let s2 := Z.lor 56320 (Z.land n 1023) in
    String backslash ("u" +:+ hex4 s1) +:+ String backslash ("u" +:+ hex4 s2).

(** a [str] given by its code points *)
Definition text (points : list Z) : string :=
  String quote (String.concat "" (map escape_point points)) +:+ String quote "".

(** an [int] of at most 4300 digits *)
Definition int (z : Z) : string := int_repr z.

Definition float (x : PrimFloat.float) : string :=
  match Prim2SF x with
  | S754_nan => "NaN"
  | S754_infinity s => if s then "-Infinity" else "Infinity"
  | _ => Float.repr x
  end.

Definition join (sep : string) (l : list string) : string := String.concat sep l.

Definition array (items : list string) : string := "[" +:+ join ", " items +:+ "]".

(** [sort_keys=True]: the items in the order of their keys *)
Fixpoint insert_item (kv : string * string) (l : list (string * string)) :
  list (string * string) :=
  match l with
  | [] => [kv]
  | kv' :: l' => if String.leb (fst kv) (fst kv') then kv :: l else kv' :: insert_item kv l'
  end.

Definition sort_items (l : list (string * string)) : list (string * string) :=
  foldr insert_item [] l.

(** an object whose values are already serialized *)
Definition object (items : list (string * string)) : string :=
  "{" +:+ join ", " (map (fun kv => str (fst kv) +:+ ": " +:+ snd kv) (sort_items items)) +:+ "}".

End Json.

(** *** [hashlib.sha256(...).hexdigest()], on 32-bit words kept in [int] *)

Module SHA256.
Local Open Scope uint63_scope.

Definition mask32 : int := 0xffffffff.
Definition add32 (x y : int) : int := (x + y) land mask32.
Definition rotr (n x : int) : int := ((x >> n) lor (x << (32 - n))) land mask32.
Definition Ch (x y z : int) : int := (x land y) lxor ((x lxor mask32) land z).
Definition Maj (x y z : int) : int := ((x land y) lxor (x land z)) lxor (y land z).
Definition Sigma0 (x : int) : int := (rotr 2 x lxor rotr 13 x) lxor rotr 22 x.
Definition Sigma1 (x : int) : int := (rotr 6 x lxor rotr 11 x) lxor rotr 25 x.
Definition sigma0 (x : int) : int := (rotr 7 x lxor rotr 18 x) lxor (x >> 3).
Definition sigma1 (x : int) : int := (rotr 17 x lxor rotr 19 x) lxor (x >> 10).

(** The constants are derived as the standard defines them, from the first
    64 primes. *)
Definition is_prime (n : nat) : bool :=
  forallb (fun d => negb (n mod d =? 0)%nat) (seq 2 (n - 2)).

Definition primes : list Z :=
  Eval vm_compute in map Z.of_nat (List.filter is_prime (seq 2 310)).

(** the largest [r] below [2 ^ bits] with [r ^ 3 <= n], bit by bit *)
Fixpoint cube_root (bits : nat) (n r : Z) : Z :=
  match bits with
  | O => r
  | S b =>
      let r' := (r + 2 ^ Z.of_nat b)%Z in
      cube_root b n (if (r' ^ 3 <=? n)%Z then r' else r)
  end.

(** the first 32 bits of the fractional parts of the cube roots *)
Definition K : list int :=
  Eval vm_compute in
    map (fun p => of_Z (cube_root 40 (p * 2 ^ 96) 0 mod 2 ^ 32)%Z) primes.

(** the first 32 bits of the fractional parts of the square roots *)
Definition H0 : list int :=
  Eval vm_compute in
    map (fun p => of_Z (Z.sqrt (p * 2 ^ 64) mod 2 ^ 32)%Z) (firstn 8 primes).

Definition byte_of_ascii (c : ascii) : int :=
  let 'Ascii b0 b1 b2 b3 b4 b5 b6 b7 := c in
  let bit (b : bool) (w : int) := if b then w else 0 in
  bit b0 1 + bit b1 2 + bit b2 4 + bit b3 8 + bit b4 16 + bit b5 32 + bit b6 64 + bit b7 128.

(** [str.encode()] of a string of ASCII characters *)
Fixpoint encode (s : string) : list int :=
  match s with
  | EmptyString => []
  | String c s' => byte_of_ascii c :: encode s'
  end.

(** the bit length of the message, as 8 big-endian bytes *)
Definition length_bytes (nbytes : nat) : list int :=
  let bits := (Z.of_nat nbytes * 8)%Z in
  map (fun i => of_Z (Z.land (Z.shiftr bits (8 * Z.of_nat i)) 255)%Z) [7; 6; 5; 4; 3; 2; 1; 0]%nat.

Definition pad (msg : list int) : list int :=
  let n := length msg in
  let zeros := ((64 - (n + 9) mod 64) mod 64)%nat in
  msg ++ [0x80] ++ replicate zeros 0 ++ length_bytes n.

Fixpoint words_of_bytes (bs : list int) : list int :=
  match bs with
  | a :: b :: c :: d :: rest =>
      ((a << 24) lor (b << 16) lor (c << 8) lor d) :: words_of_bytes rest
  | _ => []
  end.

Fixpoint chunks (fuel : nat) (ws : list int) : list (list int) :=
  match fuel, ws with
  | S f, _ :: _ => firstn 16 ws :: chunks f (skipn 16 ws)
  | _, _ => []
  end.

Record regs := Regs { ra : int; rb : int; rc : int; rd : int; re : int; rf : int; rg : int; rh : int }.

Definition round (k w : int) (r : regs) : regs :=
  let t1 := add32 (add32 (add32 (add32 (rh r) (Sigma1 (re r))) (Ch (re r) (rf r) (rg r))) k) w in
  let t2 := add32 (Sigma0 (ra r)) (Maj (ra r) (rb r) (rc r)) in
  Regs (add32 t1 t2) (ra r) (rb r) (rc r) (add32 (rd r) t1) (re r) (rf r) (rg r).

(** the window holds the schedule words [W t .. W (t + 15)] *)
Definition next_word (win : list int) : int :=
  add32 (add32 (add32 (sigma1 (nth 14 win 0)) (nth 9 win 0)) (sigma0 (nth 1 win 0))) (nth 0 win 0).

Fixpoint rounds (ks : list int) (win : list int) (r : regs) : regs :=
  match ks with
  | [] => r
  | k :: ks' => rounds ks' (tl win ++ [next_word win]) (round k (hd 0 win) r)
  end.

Definition compress (h : list int) (block : list int) : list int :=
  match h with
  | [a; b; c; d; e; f; g; hh] =>
      let r := rounds K block (Regs a b c d e f g hh) in
      [add32 a (ra r); add32 b (rb r); add32 c (rc r); add32 d (rd r);
       add32 e (re r); add32 f (rf r); add32 g (rg r); add32 hh (rh r)]
  | _ => h
  end.

Definition hex_of_word (w : int) : string :=
  string_of_list_ascii
    (map (fun s => Json.hex_digit (Z.to_nat (to_Z ((w >> s) land 15)))) [28; 24; 20; 16; 12; 8; 4; 0]).

Definition digest (msg : list int) : list int :=
  let ws := words_of_bytes (pad msg) in
  fold_left compress (chunks (length ws) ws) H0.

Definition hexdigest (s : string) : string :=
  String.concat "" (map hex_of_word (digest (encode s))).

End SHA256.

End Py.

Import Py.

(** ** Data model *)

(** The values stored in a transaction [dict]: the module stores strings,
    ints and floats. [VText] holds a [str] by its code points (0 to
    0x10ffff, the surrogates included), for the strings that have code
    points above 255. *)
Inductive value :=
| VStr (s : string)
| VInt (z : Z)
| VFloat (x : float)
| VText (points : list Z).

(** the code points of a [string] *)
Definition points_of (s : string) : list Z :=
  map (fun c => Z.of_nat (nat_of_ascii c)) (list_ascii_of_string s).

(** A transaction: a [dict] with string keys. *)
Abbreviation tx := (gmap string value).

Definition value_json (v : value) : string :=
  match v with
  | VStr s => Json.str s
  | VInt z => Json.int z
  | VFloat x => Json.float x
  | VText points => Json.text points
  end.

Definition tx_json (t : tx) : string :=
  Json.object (map (fun kv => (fst kv, value_json (snd kv))) (map_to_list t)).

(** [transaction.get(key) == address], for an [address : str] *)
Definition get_is (transaction : tx) (key address : string) : bool :=
  match transaction !! key with
  | Some (VStr s) => String.eqb s address
  | Some (VText points) => bool_decide (points = points_of address)
  | _ => false
  end.

(** [transaction.get('total_cost', 0)] *)
Definition get_total_cost (transaction : tx) : value :=
  default (VInt 0) (transaction !! "total_cost").

(** ** class Block *)

Module Block.

Record t := mk {
  index : Z;
  timestamp : string;
  transactions : list tx;
  previous_hash : string;
  nonce : Z;
  hash : string
}.

Definition set_nonce (self : t) (n : Z) : t :=
  mk (index self) (timestamp self) (transactions self) (previous_hash self) n (hash self).

Definition set_hash (self : t) (h : string) : t :=
  mk (index self) (timestamp self) (transactions self) (previous_hash self) (nonce self) h.

Definition block_string (self : t) : string :=
  Json.object
    [("index", Json.int (index self));
     ("timestamp", Json.str (timestamp self));
     ("transactions", Json.array (map tx_json (transactions self)));
     ("previous_hash", Json.str (previous_hash self));
     ("nonce", Json.int (nonce self))].

Definition calculate_hash (self : t) : string :=
  SHA256.hexdigest (block_string self).

(** [Block(index, timestamp, transactions, previous_hash)] *)
Definition init (index : Z) (timestamp : string) (transactions : list tx)
    (previous_hash : string) : t :=
  let self := mk index timestamp transactions previous_hash 0 "" in
  set_hash self (calculate_hash self).

(** The [while] loop of [mine_block], at most [fuel] iterations. *)
Fixpoint mine_block (fuel : nat) (difficulty : Z) (self : t) : option t :=
  let target := repeat "0" difficulty in
  if negb (String.eqb (slice_to (hash self) difficulty) target) then
    match fuel with
    | O => None
    | S fuel' =>
        let self := set_nonce self (nonce self + 1) in
        let self := set_hash self (calculate_hash self) in
        mine_block fuel' difficulty self
    end
  else Some self.


End Block.

(** ** class SmartContract *)

Module SmartContract.

Record t := mk {
  contract_id : string;
  producer : string;
  consumer : string;
  energy_kwh : float;
  price : float;
  status : string;
  timestamp : string
}.

(** [SmartContract(contract_id, producer, consumer, energy_kwh, price)];
    [now] is [datetime.now().isoformat()] *)
Definition init (contract_id producer consumer : string) (energy_kwh price : float)
    (now : string) : t :=
  mk contract_id producer consumer energy_kwh price "pending" now.

Definition set_status (self : t) (s : string) : t :=
  mk (contract_id self) (producer self) (consumer self) (energy_kwh self) (price self) s
     (timestamp self).

Definition execute (self : t) : t * tx :=
  let transaction : tx :=
    list_to_map
      [("contract_id", VStr (contract_id self));
       ("from", VStr (producer self));
       ("to", VStr (consumer self));
       ("energy_kwh", VFloat (energy_kwh self));
       ("price_per_kwh", VFloat (price self));
       ("total_cost", VFloat (energy_kwh self * price self));
       ("timestamp", VStr (timestamp self));
       ("type", VStr "energy_trade")] in
  (set_status self "completed", transaction).

End SmartContract.

(** ** class EnergyBlockchain *)

Module EnergyBlockchain.

Record t := mk {
  chain : list Block.t;
  pending_transactions : list tx;
  difficulty : Z;
  mining_reward : float
}.

Definition set_chain (self : t) (c : list Block.t) : t :=
  mk c (pending_transactions self) (difficulty self) (mining_reward self).

Definition set_pending_transactions (self : t) (p : list tx) : t :=
  mk (chain self) p (difficulty self) (mining_reward self).

Definition of_option {A : Type} (o : option A) : result A :=
  match o with
  | Some a => Ok a
  | None => Diverge
  end.

Definition create_genesis_block (fuel : nat) (now : string) (self : t) : result t :=
  let genesis_block := Block.init 0 now [] "0" in
  genesis_block ← of_option (Block.mine_block fuel (difficulty self) genesis_block);
  Ok (set_chain self (chain self ++ [genesis_block])).

(** [EnergyBlockchain(difficulty)]; the default [difficulty] is 2 *)
Definition init (fuel : nat) (difficulty : Z) (now : string) : result t :=
  let self := mk [] [] difficulty 1%float in
  create_genesis_block fuel now self.

(** [self.chain[-1]] *)
Definition get_latest_block (self : t) : result Block.t :=
  match last (chain self) with
  | Some b => Ok b
  | None => Raise IndexError
  end.

Definition add_transaction (self : t) (transaction : tx) : t :=
  set_pending_transactions self (pending_transactions self ++ [transaction]).

Definition reward_transaction (self : t) (miner_address : string) : tx :=
  list_to_map
    [("from", VStr "network");
     ("to", VStr miner_address);
     ("energy_kwh", VInt 0);
     ("price_per_kwh", VInt 0);
     ("total_cost", VFloat (mining_reward self));
     ("type", VStr "mining_reward")].

(** The second component is the value the call returns: [None], the Python
    [None], on both paths. *)
Definition mine_pending_transactions (fuel : nat) (self : t) (miner_address now : string) :
    result (t * option Block.t) :=
  match pending_transactions self with
  | [] => Ok (self, None)
  | _ :: _ =>
      latest ← get_latest_block self;
      let new_block :=
        Block.init (Z.of_nat (length (chain self))) now (pending_transactions self)
                   (Block.hash latest) in
      new_block ← of_option (Block.mine_block fuel (difficulty self) new_block);
      let self := set_chain self (chain self ++ [new_block]) in
      let self := set_pending_transactions self [reward_transaction self miner_address] in
      Ok (self, None)
  end.

(** the body of the loop of [is_chain_valid], at index [i] *)
Definition check_block (c : list Block.t) (i : nat) : bool :=
  match c !! i, c !! (i - 1)%nat with
  | Some current_block, Some previous_block =>
      if negb (String.eqb (Block.hash current_block) (Block.calculate_hash current_block))
      then false
      else if negb (String.eqb (Block.previous_hash current_block) (Block.hash previous_block))
      then false
      else true
  | _, _ => true
  end.

Definition is_chain_valid (self : t) : bool :=
  forallb (check_block (chain self)) (seq 1 (length (chain self) - 1)).

(** The replay of [get_balance], over the accumulator type [B]:
    [iadd b v] is [b += v] and [isub b v] is [b -= v]. *)
Section Replay.
Context {B : Type} (zero : B) (iadd isub : B -> value -> result B).

Definition replay_transaction (address : string) (balance : B) (transaction : tx) :
    result B :=
  balance ← (if get_is transaction "to" address
             then iadd balance (get_total_cost transaction)
             else Ok balance);
  if get_is transaction "from" address
  then isub balance (get_total_cost transaction)
  else Ok balance.

Definition replay (c : list Block.t) (address : string) : result B :=
  foldM (fun balance block =>
           foldM (replay_transaction address) balance (Block.transactions block))
        zero c.
End Replay.

(** [float + v] and [float - v] for a value [v] *)
Definition to_float (v : value) : result float :=
  match v with
  | VFloat x => Ok x
  | VInt z => Float.of_int z
  | VStr _ | VText _ => Raise TypeError
  end.

Definition float_iadd (balance : float) (v : value) : result float :=
  x ← to_float v; Ok (balance + x)%float.

Definition float_isub (balance : float) (v : value) : result float :=
  x ← to_float v; Ok (balance - x)%float.

Definition get_balance (self : t) (address : string) : result float :=
  replay 0%float float_iadd float_isub (chain self) address.

End EnergyBlockchain.

(** ** Ledger states and the properties under study *)

Import EnergyBlockchain.

(** The ledgers built by the constructor followed by any sequence of
    [add_transaction] and [mine_pending_transactions] calls that return;
    [P] restricts the transactions that are submitted. *)
Inductive reachable_from (P : tx -> Prop) : EnergyBlockchain.t -> Prop :=
| reachable_init fuel difficulty now self :
    EnergyBlockchain.init fuel difficulty now = Ok self ->
    reachable_from P self
| reachable_submit self transaction :
    reachable_from P self ->
    P transaction ->
    reachable_from P (add_transaction self transaction)
| reachable_seal fuel self miner_address now self' r :
    reachable_from P self ->
    mine_pending_transactions fuel self miner_address now = Ok (self', r) ->
    reachable_from P self'.

Definition reachable : EnergyBlockchain.t -> Prop := reachable_from (fun _ => True).

(** the transactions returned by [SmartContract.execute] *)
Definition executed (transaction : tx) : Prop :=
  exists c : SmartContract.t, transaction = snd (SmartContract.execute c).

(** [self.chain[n] = b], for an index [n] inside the chain (Python raises
    [IndexError] outside, where the list update changes nothing) *)
Definition tamper (self : EnergyBlockchain.t) (n : nat) (b : Block.t) : EnergyBlockchain.t :=
  set_chain self (<[n := b]> (chain self)).

(** The first [d] characters of [h] are all ['0']. *)
Definition leading_zeros (d : Z) (h : string) : Prop :=
  forall k : nat, (Z.of_nat k < d)%Z -> String.get k h = Some "0"%char.

(** The chain invariant. *)
Record chain_invariant (c : list Block.t) : Prop := {
  inv_genesis : exists genesis, c !! 0%nat = Some genesis /\
                  Block.index genesis = 0%Z /\ Block.previous_hash genesis = "0";
  inv_link : forall i current_block previous_block,
      c !! S i = Some current_block -> c !! i = Some previous_block ->
      Block.previous_hash current_block = Block.hash previous_block;
  inv_hash : forall i b, c !! i = Some b -> Block.hash b = Block.calculate_hash b;
  inv_index : forall i b, c !! i = Some b -> Block.index b = Z.of_nat i
}.

(** *** Numbers in transactions *)

(** the integer [z] and the float [x] denote the same number *)
Definition int_float_eqb (z : Z) (x : float) : bool :=
  match Prim2SF x with
  | S754_zero _ => (z =? 0)%Z
  | S754_finite s m e =>
      let v := if s then Z.neg m else Z.pos m in
      if (0 <=? e)%Z then (z =? v * 2 ^ e)%Z else (z * 2 ^ (- e) =? v)%Z
  | _ => false
  end.

(** [a == b] on numbers *)
Definition num_eqb (a b : value) : bool :=
  match a, b with
  | VInt x, VInt y => (x =? y)%Z
  | VFloat x, VFloat y => PrimFloat.eqb x y
  | VInt x, VFloat y | VFloat y, VInt x => int_float_eqb x y
  | _, _ => false
  end.

(** [a * b] on numbers *)
Definition num_mul (a b : value) : result value :=
  match a, b with
  | VInt x, VInt y => Ok (VInt (x * y))
  | VStr _, _ | _, VStr _ | VText _, _ | _, VText _ => Raise TypeError
  | _, _ => x ← to_float a; y ← to_float b; Ok (VFloat (x * y))
  end.

(** [total_cost] is [energy_kwh * price_per_kwh]: the same value, or an
    equal number. *)
Definition cost_is_product (transaction : tx) : Prop :=
  exists e p v c,
    transaction !! "energy_kwh" = Some e /\
    transaction !! "price_per_kwh" = Some p /\
    transaction !! "total_cost" = Some c /\
    num_mul e p = Ok v /\
    (c = v \/ num_eqb c v = true).

(** every transaction of the pending pool and of the chain *)
Definition all_transactions (self : EnergyBlockchain.t) : list tx :=
  pending_transactions self ++ concat (map Block.transactions (chain self)).

(** *** Sums of balances *)

(** [sum(get_balance(a) for a in addresses)] *)
Definition sum_balances (self : EnergyBlockchain.t) (addresses : list string) : result float :=
  foldM (fun acc a => b ← get_balance self a; Ok (acc + b)%float) 0%float addresses.

(** The number a finite float denotes. *)
Definition exact_float (x : float) : option Qc :=
  match Prim2SF x with
  | S754_zero _ => Some (Q2Qc 0)
  | S754_finite s m e =>
      Some (Q2Qc (inject_Z (if s then Z.neg m else Z.pos m) * Qpower 2 e))
  | _ => None
  end.

Definition exact_value (v : value) : result Qc :=
  match v with
  | VInt z => Ok (Q2Qc (inject_Z z))
  | VFloat x => match exact_float x with
                | Some q => Ok q
                | None => Raise OverflowError
                end
  | VStr _ | VText _ => Raise TypeError
  end.

Definition exact_iadd (balance : Qc) (v : value) : result Qc :=
  q ← exact_value v; Ok (balance + q)%Qc.

Definition exact_isub (balance : Qc) (v : value) : result Qc :=
  q ← exact_value v; Ok (balance - q)%Qc.

(** The replay of [get_balance] without rounding: the same loop, on
    rational numbers. *)
Definition get_balance_exact (self : EnergyBlockchain.t) (address : string) : result Qc :=
  replay (Q2Qc 0) exact_iadd exact_isub (chain self) address.

Definition sum_balances_exact (self : EnergyBlockchain.t) (addresses : list string) :
    result Qc :=
  foldM (fun acc a => b ← get_balance_exact self a; Ok (acc + b)%Qc) (Q2Qc 0) addresses.

(** *** The float replay next to the exact one *)

(** the float [x] denotes the number [q] *)
Definition denotes (x : float) (q : Qc) : bool :=
  match exact_float x with
  | Some q' => Qeq_bool q' q
  | None => false
  end.

(** A balance that carries the float, the number the float should denote,
    and whether every operation so far was exact. *)
Definition track (op : float -> float -> float) (opq : Qc -> Qc -> Qc)
    (balance : float * Qc * bool) (v : value) : result (float * Qc * bool) :=
  x ← to_float v;
  q ← exact_value v;
  let '(bf, bq, ok) := balance in
  Ok (op bf x, opq bq q, ok && denotes (op bf x) (opq bq q)).

Definition get_balance_tracked (self : EnergyBlockchain.t) (address : string) :
    result (float * Qc * bool) :=
  replay (0%float, Q2Qc 0, true) (track PrimFloat.add Qcplus) (track PrimFloat.sub Qcminus)
         (chain self) address.

Definition sum_balances_tracked (self : EnergyBlockchain.t) (addresses : list string) :
    result (float * Qc * bool) :=
  foldM (fun acc a =>
           b ← get_balance_tracked self a;
           let '(accf, accq, ok) := acc in
           let '(bf, bq, okb) := b in
           Ok ((accf + bf)%float, (accq + bq)%Qc,
               ok && okb && denotes (accf + bf)%float (accq + bq)%Qc))
        (0%float, Q2Qc 0, true) addresses.

(** a tracked balance whose flag is set holds a float that denotes its number *)
Definition sound (t : float * Qc * bool) : Prop :=
  snd t = true -> denotes (fst (fst t)) (snd (fst t)) = true.

(** A transaction between two addresses of the list, with a finite
    numeric [total_cost]. *)
Definition closed_transaction (addresses : list string) (transaction : tx) : Prop :=
  exists a b q,
    transaction !! "from" = Some (VStr a) /\
    transaction !! "to" = Some (VStr b) /\
    a ∈ addresses /\ b ∈ addresses /\
    exact_value (get_total_cost transaction) = Ok q.

(** no chained transaction has [from == "network"] *)
Definition no_network (self : EnergyBlockchain.t) : Prop :=
  Forall (fun block => Forall (fun t => get_is t "from" "network" = false)
                         (Block.transactions block)) (chain self).

(** every address that occurs as [from] or [to] in the chain is listed *)
Definition covers (addresses : list string) (self : EnergyBlockchain.t) : Prop :=
  Forall (fun block =>
            Forall (fun t => forall k a, (k = "from" \/ k = "to") ->
                                         t !! k = Some (VStr a) -> a ∈ addresses)
                   (Block.transactions block)) (chain self).

(** What the ledger stores when only contract records are submitted. *)
Definition contract_or_reward (self : EnergyBlockchain.t) (t : tx) : Prop :=
  executed t \/ exists miner_address, t = reward_transaction self miner_address.

(** *** Sums used to state what the exact replay computes *)

(** the exact [total_cost] of a transaction, 0 when it has none *)
Definition amount (t : tx) : Qc :=
  match exact_value (get_total_cost t) with
  | Ok q => q
  | _ => Q2Qc 0
  end.

(** what one transaction adds to the exact balance of [address] *)
Definition delta (address : string) (t : tx) : Qc :=
  ((if get_is t "to" address then amount t else Q2Qc 0)
   - (if get_is t "from" address then amount t else Q2Qc 0))%Qc.

Definition qsum {A : Type} (f : A -> Qc) (l : list A) : Qc :=
  fold_right (fun a acc => (f a + acc)%Qc) (Q2Qc 0) l.

Definition block_delta (address : string) (block : Block.t) : Qc :=
  qsum (delta address) (Block.transactions block).

Definition chain_delta (c : list Block.t) (address : string) : Qc :=
  qsum (block_delta address) c.

(** *** A contract next to a ledger *)

(** [contract.execute()] in a program that also holds a ledger *)
Definition execute_beside (w : SmartContract.t * EnergyBlockchain.t) :
    (SmartContract.t * EnergyBlockchain.t) * tx :=
  let '(contract, transaction) := SmartContract.execute (fst w) in
  ((contract, snd w), transaction).

(** The block after [k] iterations of the loop body. *)
Fixpoint bump (k : nat) (b : Block.t) : Block.t :=
  match k with
  | O => b
  | S k' =>
      let b := Block.set_nonce b (Block.nonce b + 1) in
      bump k' (Block.set_hash b (Block.calculate_hash b))
  end.

(** ** Concrete runs *)

Module Demo.

Definition contract : SmartContract.t :=
  SmartContract.init "SC001" "A" "B" 10 0.5 "2024-05-01T10:00:00.123456".

Definition trade : tx := snd (SmartContract.execute contract).

Definition now0 : string := "2024-05-01T09:59:59.000001".
Definition now1 : string := "2024-05-01T10:00:01.654321".

Definition genesis : Block.t := Block.init 0 now0 [] "0".

(** the ledger of the scenario: difficulty 1, one trade, sealed by [M] *)
Definition fresh : EnergyBlockchain.t :=
  Eval vm_compute in
    match EnergyBlockchain.init 100 1 now0 with
    | Ok l => l
    | _ => EnergyBlockchain.mk [] [] 1 1
    end.

Definition sealed : EnergyBlockchain.t :=
  Eval vm_compute in
    match mine_pending_transactions 100 (add_transaction fresh trade) "M" now1 with
    | Ok (l, _) => l
    | _ => fresh
    end.

(** three trades from [A], difficulty 0 *)
Definition trade_to (consumer : string) (energy_kwh : float) : tx :=
  snd (SmartContract.execute (SmartContract.init "SC" "A" consumer energy_kwh 1 now0)).

Definition fresh0 : EnergyBlockchain.t :=
  Eval vm_compute in
    match EnergyBlockchain.init 0 0 now0 with
    | Ok l => l
    | _ => EnergyBlockchain.mk [] [] 0 1
    end.

Definition three_pending : EnergyBlockchain.t :=
  add_transaction
    (add_transaction (add_transaction fresh0 (trade_to "B" 0.1)) (trade_to "C" 0.2))
    (trade_to "D" 0.3).

Definition three : EnergyBlockchain.t :=
  Eval vm_compute in
    match mine_pending_transactions 0 three_pending "M" now1 with
    | Ok (l, _) => l
    | _ => fresh0
    end.

(** the same with amounts that are sums of powers of two *)
Definition halves_pending : EnergyBlockchain.t :=
  add_transaction
    (add_transaction (add_transaction fresh0 (trade_to "B" 0.5)) (trade_to "C" 0.25))
    (trade_to "D" 0.125).

Definition halves : EnergyBlockchain.t :=
  Eval vm_compute in
    match mine_pending_transactions 0 halves_pending "M" now1 with
    | Ok (l, _) => l
    | _ => fresh0
    end.

(** a record that credits [B] and debits nobody *)
Definition gift : tx := list_to_map [("to", VStr "B"); ("total_cost", VFloat 5)].

Definition gifted : EnergyBlockchain.t :=
  Eval vm_compute in
    match mine_pending_transactions 0 (add_transaction fresh0 gift) "M" now1 with
    | Ok (l, _) => l
    | _ => fresh0
    end.

(** the sealed block, and a forgery that redirects its trade to [Z] and
    keeps the stored hash *)
Definition sealed_block : Block.t :=
  Eval vm_compute in
    match chain sealed !! 1%nat with
    | Some b => b
    | None => genesis
    end.

Definition forged_trade : tx := <["to" := VStr "Z"]> trade.


(** the first block of [sealed], and a forgery of it with a transaction
    slipped in and another timestamp *)
Definition sealed_genesis : Block.t :=
  Eval vm_compute in
    match chain sealed !! 0%nat with
    | Some b => b
    | None => genesis
    end.

Definition forged_genesis : Block.t :=
  Block.mk 0 now1 [forged_trade] "0" 0 (Block.hash sealed_genesis).

End Demo.

(** ** Further methods of the ledger, from the integrated project's module *)

(** an entry of a history: the [dict] with the keys [block] and
    [transaction] *)
Record history_entry := HistoryEntry {
  entry_block : Z;
  entry_transaction : tx
}.

Definition get_transaction_history (self : EnergyBlockchain.t) (address : string) :
    list history_entry :=
  fold_left
    (fun history block =>
       fold_left
         (fun history transaction =>
            if get_is transaction "to" address || get_is transaction "from" address
            then (history ++ [HistoryEntry (Block.index block) transaction])%list
            else history)
         (Block.transactions block) history)
    (chain self) [].

(** [sum(len(block.transactions) for block in self.chain)], the total that
    [display_chain_info] and [main] print *)
Definition total_transactions (self : EnergyBlockchain.t) : nat :=
  fold_left (fun total block => (total + length (Block.transactions block))%nat)
            (chain self) 0%nat.

(** What a ledger can become: any number of [add_transaction] calls and of
    [mine_pending_transactions] calls that return. *)
Inductive evolves (self : EnergyBlockchain.t) : EnergyBlockchain.t -> Prop :=
| evolves_refl : evolves self self
| evolves_submit self' transaction :
    evolves self self' ->
    evolves self (add_transaction self' transaction)
| evolves_seal fuel self' miner_address now self'' r :
    evolves self self' ->
    mine_pending_transactions fuel self' miner_address now = Ok (self'', r) ->
    evolves self self''.

(** the hash of a block meets the target of [mine_block] *)
Definition meets_target (difficulty : Z) (b : Block.t) : Prop :=
  slice_to (Block.hash b) difficulty = repeat "0" difficulty.

(** a record returned by [execute] whose [total_cost] is a finite float *)
Definition executed_finite (transaction : tx) : Prop :=
  exists c : SmartContract.t,
    transaction = snd (SmartContract.execute c) /\
    is_Some (exact_float (SmartContract.energy_kwh c * SmartContract.price c)).

(** the entries one block adds to a history *)
Definition block_entries (address : string) (block : Block.t) : list history_entry :=
  map (HistoryEntry (Block.index block))
      (List.filter (fun t => get_is t "to" address || get_is t "from" address)
                   (Block.transactions block)).

(** ** The caller: [main] *)

Module Main.

(** the label printed next to a balance *)
Definition balance_type (balance : float) : string :=
  if (0 <? balance)%float then "Revenue" else "Cost".

(** what [main] prints: the validity, a line for each account (the balance
    and its label), and the statistics *)
Record report := Report {
  is_valid : bool;
  account_lines : list (string * float * string);
  total_blocks : nat;
  total_txns : nat;
  mining_difficulty : Z
}.

Definition accounts : list string :=
  ["Solar_Panel_A"; "Solar_Panel_B"; "Home_User_1"; "Home_User_2"; "Business_User_1"].

Fixpoint account_balances (energy_chain : EnergyBlockchain.t) (l : list string) :
    result (list (string * float * string)) :=
  match l with
  | [] => Ok []
  | account :: l' =>
      balance ← get_balance energy_chain account;
      lines ← account_balances energy_chain l';
      Ok ((account, balance, balance_type balance) :: lines)
  end.

(** [main()]; [t0 .. t5] are the six readings of the clock, in order *)
Definition main (fuel : nat) (t0 t1 t2 t3 t4 t5 : string) : result report :=
  energy_chain ← EnergyBlockchain.init fuel 2 t0;
  let contract1 := SmartContract.init "SC001" "Solar_Panel_A" "Home_User_1" 25.5 0.12 t1 in
  let contract2 := SmartContract.init "SC002" "Solar_Panel_B" "Business_User_1" 150 0.10 t2 in
  let contract3 := SmartContract.init "SC003" "Solar_Panel_A" "Home_User_2" 35 0.11 t3 in
  let '(contract1, transaction1) := SmartContract.execute contract1 in
  let energy_chain := add_transaction energy_chain transaction1 in
  let '(contract2, transaction2) := SmartContract.execute contract2 in
  let energy_chain := add_transaction energy_chain transaction2 in
  sealed ← mine_pending_transactions fuel energy_chain "Validator_Node_1" t4;
  let energy_chain := fst sealed in
  let '(contract3, transaction3) := SmartContract.execute contract3 in
  let energy_chain := add_transaction energy_chain transaction3 in
  sealed ← mine_pending_transactions fuel energy_chain "Validator_Node_2" t5;
  let energy_chain := fst sealed in
  let is_valid := is_chain_valid energy_chain in
  lines ← account_balances energy_chain accounts;
  Ok (Report is_valid lines (length (chain energy_chain)) (total_transactions energy_chain)
             (difficulty energy_chain)).

End Main.

(** ** Further concrete runs *)

Module Runs.

(** a record whose [total_cost] is a string, sealed at difficulty 0, and
    the ledger one more block later *)
Definition poison : tx := list_to_map [("to", VStr "B"); ("total_cost", VStr "free")].

Definition poisoned : EnergyBlockchain.t :=
  Eval vm_compute in
    match mine_pending_transactions 0 (add_transaction Demo.fresh0 poison) "M" Demo.now1 with
    | Ok (l, _) => l
    | _ => Demo.fresh0
    end.

Definition poisoned_later : EnergyBlockchain.t :=
  Eval vm_compute in
    match mine_pending_transactions 0 (add_transaction poisoned Demo.gift) "M" Demo.now1 with
    | Ok (l, _) => l
    | _ => Demo.fresh0
    end.

(** a replacement for the sealed block of the scenario: another record,
    another timestamp, the hash computed by the constructor and no search *)
Definition rehashed_block : Block.t :=
  Eval vm_compute in
    Block.init 7 Demo.now0 [Demo.gift] (Block.hash Demo.sealed_genesis).

(** the scenario with the trade submitted again and sealed by [N] *)
Definition now2 : string := "2024-05-01T10:00:02.000000".

Definition sealed_again : EnergyBlockchain.t :=
  Eval vm_compute in
    match mine_pending_transactions 100 (add_transaction Demo.sealed Demo.trade) "N" now2 with
    | Ok (l, _) => l
    | _ => Demo.sealed
    end.

(** six readings of the clock for a run of [main], and its three blocks *)
Definition t0 : string := "2024-05-01T10:00:00.000053".
Definition t1 : string := "2024-05-01T10:00:00.000101".
Definition t2 : string := "2024-05-01T10:00:00.000102".
Definition t3 : string := "2024-05-01T10:00:00.000103".
Definition t4 : string := "2024-05-01T10:00:01.000016".
Definition t5 : string := "2024-05-01T10:00:02.000182".

Definition main_genesis : Block.t :=
  Eval vm_compute in
    match Block.mine_block 10 2 (Block.init 0 t0 [] "0") with
    | Some b => b
    | None => Demo.genesis
    end.

Definition main_block1 : Block.t :=
  Eval vm_compute in
    match Block.mine_block 10 2
            (Block.init 1 t4
               [snd (SmartContract.execute
                       (SmartContract.init "SC001" "Solar_Panel_A" "Home_User_1" 25.5 0.12 t1));
                snd (SmartContract.execute
                       (SmartContract.init "SC002" "Solar_Panel_B" "Business_User_1" 150 0.10
                          t2))]
               (Block.hash main_genesis)) with
    | Some b => b
    | None => Demo.genesis
    end.

Definition main_block2 : Block.t :=
  Eval vm_compute in
    match Block.mine_block 10 2
            (Block.init 2 t5
               [reward_transaction (EnergyBlockchain.mk [] [] 2 1) "Validator_Node_1";
                snd (SmartContract.execute
                       (SmartContract.init "SC003" "Solar_Panel_A" "Home_User_2" 35 0.11 t3))]
               (Block.hash main_block1)) with
    | Some b => b
    | None => Demo.genesis
    end.

End Runs.

(** ** Reading a serialization back

    Functions that read back what [json.dumps] wrote; they serve to show
    that the serialization of a block determines its hashed fields. *)

Module Read.

Fixpoint all (P : ascii -> bool) (s : string) : bool :=
  match s with
  | EmptyString => true
  | String c s' => P c && all P s'
  end.


















End Read.
Module ReadText.



End ReadText.

(** a code point that is not a surrogate *)
Definition proper_point (n : Z) : Prop :=
  (0 <= n < 55296 \/ 57344 <= n < 1114112)%Z.

(** ** Values that are written in one way only *)

(** The values that [json.dumps] writes without error and as no other
    value: a string without surrogate code points (a code point above
    0xffff is written as its surrogate pair, which is also how the two
    surrogates are written), an [int] of at most 4300 digits (beyond, the
    conversion to [str] raises [ValueError]), a float. A string is a [VStr]
    when all its code points are below 256 and a [VText] otherwise. *)
Definition plain_value (v : value) : Prop :=
  match v with
  | VStr _ | VFloat _ => True
  | VInt z => (Z.abs z < 10 ^ 4300)%Z
  | VText points => Forall proper_point points /\ Exists (fun n => (256 <= n)%Z) points
  end.

Definition plain_tx (t : tx) : Prop := map_Forall (fun _ v => plain_value v) t.

Definition plain_block (b : Block.t) : Prop :=
  (Z.abs (Block.index b) < 10 ^ 4300)%Z /\
  (Z.abs (Block.nonce b) < 10 ^ 4300)%Z /\
  Forall plain_tx (Block.transactions b).

(** a check that is enough for [plain_block], with the ints below
    [10 ^ 18]; it serves the concrete runs *)
Definition proper_pointb (n : Z) : bool :=
  ((0 <=? n) && (n <? 55296) || (57344 <=? n) && (n <? 1114112))%Z.

Definition small_valueb (v : value) : bool :=
  match v with
  | VStr _ | VFloat _ => true
  | VInt z => (Z.abs z <? 10 ^ 18)%Z
  | VText points => forallb proper_pointb points && existsb (Z.leb 256) points
  end.

Definition small_blockb (b : Block.t) : bool :=
  (Z.abs (Block.index b) <? 10 ^ 18)%Z && (Z.abs (Block.nonce b) <? 10 ^ 18)%Z &&
  forallb (fun t : tx => forallb (fun kv => small_valueb (snd kv)) (map_to_list t))
          (Block.transactions b).

(** ** A change that the digest does not see *)

Module Forgery.

(** a record whose receiver is the one code point U+1F600, and the record
    with that receiver replaced by the two surrogates U+D83D U+DE00 *)
Definition astral : tx :=
  list_to_map [("from", VStr "A"); ("to", VText [128512]%Z); ("total_cost", VFloat 1)].


Definition ledger : EnergyBlockchain.t :=
  Eval vm_compute in
    match mine_pending_transactions 0 (add_transaction Demo.fresh0 astral) "M" Demo.now1 with
    | Ok (l, _) => l
    | _ => Demo.fresh0
    end.

Definition block : Block.t :=
  Eval vm_compute in
    match chain ledger !! 1%nat with
    | Some b => b
    | None => Demo.genesis
    end.


End Forgery.

(** ** The serialization determines the block

    [json.dumps] can be read back: the text that [calculate_hash] hashes
    determines the hashed fields of a block whose values are written in
    one way only. *)

Section Serialization.
Import Read ReadText.

(** ** The serialization determines the block *)

(** *** Strings *)








(** *** [str] *)






(** *** [int] *)











(** *** [str], by code points *)














(** *** [float]: the digits lie in the rounding interval *)

Section Decimal.
Local Open Scope Z_scope.













End Decimal.

Section Estimate.
Local Open Scope Z_scope.










End Estimate.

Section Binary64.
Local Open Scope Z_scope.






End Binary64.

Section Disjoint.
Local Open Scope Z_scope.




End Disjoint.

(** *** [float]: the numeral that [format_repr] writes *)

















Section FloatText.
Local Open Scope Z_scope.



End FloatText.



(** *** Values, objects and arrays *)


















(** *** Blocks *)




Lemma proper_pointb_spec (n : Z) : proper_pointb n = true -> proper_point n.
Proof. unfold proper_pointb, proper_point. lia. Qed.

Lemma below_limit (z : Z) : (z < 10 ^ 18)%Z -> (z < 10 ^ 4300)%Z.
Proof.
  intros H. eapply Z.lt_le_trans; [exact H|]. apply Z.pow_le_mono_r; lia.
Qed.

Lemma small_valueb_spec (v : value) : small_valueb v = true -> plain_value v.
Proof.
  destruct v as [s|z|x|p]; cbn [small_valueb plain_value]; [auto | | auto |].
  - intros H. apply below_limit, Z.ltb_lt, H.
  - intros H. apply andb_prop in H as [H1 H2]. split.
    + rewrite forallb_forall in H1. apply List.Forall_forall. intros n Hn.
      apply proper_pointb_spec, H1, Hn.
    + apply existsb_exists in H2 as (n & Hn & Hle). apply List.Exists_exists.
      exists n. split; [exact Hn | apply Z.leb_le, Hle].
Qed.

Lemma small_blockb_spec (b : Block.t) : small_blockb b = true -> plain_block b.
Proof.
  unfold small_blockb, plain_block. intros H.
  apply andb_prop in H as [H Ht]. apply andb_prop in H as [Hi Hn].
  split; [apply below_limit, Z.ltb_lt, Hi|]. split; [apply below_limit, Z.ltb_lt, Hn|].
  rewrite forallb_forall in Ht. apply List.Forall_forall. intros t Hin.
  specialize (Ht t Hin). rewrite forallb_forall in Ht.
  apply map_Forall_to_list, List.Forall_forall. intros [k v] Hkv.
  apply small_valueb_spec, (Ht (k, v)), Hkv.
Qed.

End Serialization.

(** ** Library facts *)

(** The digest is never unfolded in a proof; concrete runs evaluate it. *)
Opaque SHA256.hexdigest Json.object Json.array Json.str Json.int Float.repr.

Section ResultFacts.
Context {A B : Type}.

Lemma bind_Ok (m : result A) (f : A -> result B) (b : B) :
  m ≫= f = Ok b -> exists a, m = Ok a /\ f a = Ok b.
Proof. destruct m as [a| |]; simpl; intros H; try discriminate. eauto. Qed.

Lemma of_option_Ok (o : option A) (a : A) : of_option o = Ok a -> o = Some a.
Proof. destruct o; simpl; congruence. Qed.
End ResultFacts.

Lemma concat_zeros_S (d : nat) :
  String.concat "" (replicate (S (S d)) "0") =
  String "0"%char (String.concat "" (replicate (S d) "0")).
Proof. reflexivity. Qed.

Lemma get_zeros (d k : nat) :
  (k < d)%nat -> String.get k (String.concat "" (replicate d "0")) = Some "0"%char.
Proof.
  revert k. induction d as [|d IH]; intros k Hk; [lia|].
  destruct d as [|d'].
  - destruct k; [reflexivity | lia].
  - rewrite concat_zeros_S. destruct k as [|k]; [reflexivity|].
    cbn [String.get]. apply IH. lia.
Qed.

Lemma slice_to_zeros (h : string) (d : Z) :
  slice_to h d = repeat "0" d -> leading_zeros d h.
Proof.
  intros Heq k Hk. unfold slice_to, repeat in Heq.
  assert (Hd : (0 < d)%Z) by lia.
  destruct (d <? 0)%Z eqn:Hneg; [apply Z.ltb_lt in Hneg; lia|].
  assert (Hz : String.get k (String.concat "" (replicate (Z.to_nat d) "0")) = Some "0"%char)
    by (apply get_zeros; lia).
  rewrite <- Heq in Hz.
  destruct (Nat.lt_ge_cases k (Z.to_nat (Z.min d (Z.of_nat (String.length h))))) as [Hlt|Hge].
  - rewrite String.substring_correct1 in Hz by exact Hlt.
    rewrite Nat.add_0_r in Hz. exact Hz.
  - rewrite String.substring_correct2 in Hz by exact Hge. discriminate.
Qed.

Lemma slice_to_0 (h : string) : slice_to h 0 = "".
Proof. unfold slice_to. simpl. destruct h; reflexivity. Qed.

(** ** Facts about [Block] *)

Lemma init_hash index timestamp transactions previous_hash :
  Block.hash (Block.init index timestamp transactions previous_hash) =
  Block.calculate_hash (Block.init index timestamp transactions previous_hash).
Proof.
  unfold Block.init, Block.calculate_hash, Block.block_string. reflexivity.
Qed.

Lemma calculate_hash_set_hash (b : Block.t) (h : string) :
  Block.calculate_hash (Block.set_hash b h) = Block.calculate_hash b.
Proof. reflexivity. Qed.

(** What a returning [mine_block] leaves: the fields other than [nonce] and
    [hash], a current hash, and a hash that meets the target. *)
Lemma mine_block_spec fuel difficulty (b b' : Block.t) :
  Block.mine_block fuel difficulty b = Some b' ->
  Block.index b' = Block.index b /\
  Block.timestamp b' = Block.timestamp b /\
  Block.transactions b' = Block.transactions b /\
  Block.previous_hash b' = Block.previous_hash b /\
  (Block.nonce b <= Block.nonce b')%Z /\
  (Block.hash b = Block.calculate_hash b -> Block.hash b' = Block.calculate_hash b') /\
  slice_to (Block.hash b') difficulty = repeat "0" difficulty.
Proof.
  revert b. induction fuel as [|fuel IH]; intros b; cbn [Block.mine_block];
    destruct (String.eqb (slice_to (Block.hash b) difficulty) (repeat "0" difficulty)) eqn:E;
    cbn [negb]; intros H; try discriminate.
  - injection H as <-. apply String.eqb_eq in E. repeat split; [lia | tauto | exact E].
  - injection H as <-. apply String.eqb_eq in E. repeat split; [lia | tauto | exact E].
  - apply IH in H. destruct H as (Hi & Ht & Htx & Hp & Hn & Hh & Hz).
    split; [exact Hi|]. split; [exact Ht|]. split; [exact Htx|]. split; [exact Hp|].
    split; [cbn [Block.nonce Block.set_hash Block.set_nonce] in Hn; lia|].
    split; [| exact Hz].
    intros _. apply Hh. apply eq_sym, calculate_hash_set_hash.
Qed.

(** A block that meets the target is returned as it is, whatever the fuel. *)
Lemma mine_block_done fuel difficulty (b : Block.t) :
  slice_to (Block.hash b) difficulty = repeat "0" difficulty ->
  Block.mine_block fuel difficulty b = Some b.
Proof.
  intros H. apply String.eqb_eq in H.
  destruct fuel; cbn [Block.mine_block]; rewrite H; reflexivity.
Qed.

(** Enough fuel gives the result: if the hash after [k] more nonces is the
    first to meet the target, [mine_block] returns that block with any fuel
    of at least [k]. *)
Lemma mine_block_complete fuel difficulty (k : nat) (b : Block.t) :
  (forall j, (j < k)%nat ->
     slice_to (Block.hash (bump j b)) difficulty <> repeat "0" difficulty) ->
  slice_to (Block.hash (bump k b)) difficulty = repeat "0" difficulty ->
  (k <= fuel)%nat ->
  Block.mine_block fuel difficulty b = Some (bump k b).
Proof.
  revert fuel b. induction k as [|k IH]; intros fuel b Hbefore Hk Hfuel.
  - apply mine_block_done. exact Hk.
  - destruct fuel as [|fuel]; [lia|]. cbn [Block.mine_block].
    destruct (String.eqb (slice_to (Block.hash b) difficulty) (repeat "0" difficulty)) eqn:E.
    + apply String.eqb_eq in E. exfalso. apply (Hbefore 0%nat); [lia | exact E].
    + cbn [negb]. apply IH; [| exact Hk | lia].
      intros j Hj. apply (Hbefore (S j)). lia.
Qed.

(** ** Facts about [EnergyBlockchain] *)

Lemma init_Ok fuel d now self :
  EnergyBlockchain.init fuel d now = Ok self ->
  exists g, Block.mine_block fuel d (Block.init 0 now [] "0") = Some g /\
            self = EnergyBlockchain.mk [g] [] d 1%float.
Proof.
  unfold EnergyBlockchain.init, create_genesis_block. intros H.
  apply bind_Ok in H as (g & Hg & H). apply of_option_Ok in Hg.
  injection H as <-. exists g. split; [exact Hg | reflexivity].
Qed.

(** The two paths of [mine_pending_transactions]. *)
Lemma seal_Ok fuel self miner now self' r :
  mine_pending_transactions fuel self miner now = Ok (self', r) ->
  (pending_transactions self = [] /\ self' = self /\ r = None) \/
  (pending_transactions self <> [] /\
   exists latest b,
     last (chain self) = Some latest /\
     Block.mine_block fuel (difficulty self)
       (Block.init (Z.of_nat (length (chain self))) now (pending_transactions self)
                   (Block.hash latest)) = Some b /\
     self' = EnergyBlockchain.mk (chain self ++ [b]) [reward_transaction self miner]
                                 (difficulty self) (mining_reward self) /\
     r = None).
Proof.
  unfold mine_pending_transactions, get_latest_block.
  destruct (pending_transactions self) as [|t p] eqn:Ep.
  - intros H. injection H as <- <-. left. auto.
  - intros H. right. split; [discriminate|].
    destruct (last (chain self)) as [latest|]; [|discriminate].
    apply bind_Ok in H as (latest' & Hl & H). injection Hl as <-.
    apply bind_Ok in H as (b & Hb & H). apply of_option_Ok in Hb.
    injection H as <- <-. exists latest, b. split; [reflexivity|]. split; [exact Hb|]. split; reflexivity.
Qed.

Lemma seal_empty fuel self miner now :
  pending_transactions self = [] ->
  mine_pending_transactions fuel self miner now = Ok (self, None).
Proof. unfold mine_pending_transactions. intros ->. reflexivity. Qed.

Lemma seal_nonempty fuel self miner now latest b :
  pending_transactions self <> [] ->
  last (chain self) = Some latest ->
  Block.mine_block fuel (difficulty self)
    (Block.init (Z.of_nat (length (chain self))) now (pending_transactions self)
                (Block.hash latest)) = Some b ->
  mine_pending_transactions fuel self miner now =
  Ok (EnergyBlockchain.mk (chain self ++ [b]) [reward_transaction self miner]
                          (difficulty self) (mining_reward self), None).
Proof.
  unfold mine_pending_transactions, get_latest_block. intros Hp Hl Hb.
  destruct (pending_transactions self) as [|t p] eqn:Ep; [congruence|].
  rewrite Hl. cbn [mbind result_bind]. rewrite Hb. reflexivity.
Qed.

(** *** The chain invariant *)

Lemma invariant_genesis (g : Block.t) :
  Block.index g = 0%Z -> Block.previous_hash g = "0" ->
  Block.hash g = Block.calculate_hash g ->
  chain_invariant [g].
Proof.
  intros Hi Hp Hh. split.
  - exists g. auto.
  - intros i cur prev H. destruct i; discriminate.
  - intros [|i] b H; [injection H as <-; exact Hh | destruct i; discriminate].
  - intros [|i] b H; [injection H as <-; exact Hi | destruct i; discriminate].
Qed.

Lemma invariant_snoc (c : list Block.t) (latest b : Block.t) :
  chain_invariant c ->
  last c = Some latest ->
  Block.index b = Z.of_nat (length c) ->
  Block.previous_hash b = Block.hash latest ->
  Block.hash b = Block.calculate_hash b ->
  chain_invariant (c ++ [b]).
Proof.
  intros [Hg Hl Hh Hi] Hlast Hbi Hbp Hbh.
  rewrite last_lookup in Hlast. split.
  - destruct Hg as (g & H0 & Hg). exists g. split; [|exact Hg].
    apply lookup_app_l_Some. exact H0.
  - intros i cur prev Hc Hp.
    apply lookup_snoc_Some in Hc as [[Hlt Hc]|[Hlen <-]].
    + apply lookup_snoc_Some in Hp as [[_ Hp]|[Hlen _]]; [eauto | lia].
    + apply lookup_snoc_Some in Hp as [[_ Hp]|[Hlen' _]]; [|lia].
      replace (Init.Nat.pred (length c)) with i in Hlast by lia.
      rewrite Hbp. congruence.
  - intros i x Hx. apply lookup_snoc_Some in Hx as [[_ Hx]|[_ <-]]; eauto.
  - intros i x Hx. apply lookup_snoc_Some in Hx as [[_ Hx]|[Hlen <-]]; [eauto|].
    rewrite Hlen. exact Hbi.
Qed.

Lemma reachable_invariant (P : tx -> Prop) (self : EnergyBlockchain.t) :
  reachable_from P self -> chain_invariant (chain self).
Proof.
  induction 1 as [fuel d now self H | self t Hr IH Pt | fuel self miner now self' r Hr IH H].
  - apply init_Ok in H as (g & Hg & ->). cbn [chain].
    apply mine_block_spec in Hg as (Hi & _ & _ & Hp & _ & Hh & _).
    apply invariant_genesis; [exact Hi | exact Hp | apply Hh, init_hash].
  - exact IH.
  - apply seal_Ok in H as [(_ & -> & _)|(_ & latest & b & Hl & Hb & -> & _)]; [exact IH|].
    cbn [chain].
    apply mine_block_spec in Hb as (Hi & _ & _ & Hp & _ & Hh & _).
    eapply invariant_snoc; [exact IH | exact Hl | exact Hi | exact Hp | apply Hh, init_hash].
Qed.

(** *** [is_chain_valid], index by index *)

Lemma is_chain_valid_true (self : EnergyBlockchain.t) :
  is_chain_valid self = true <->
  forall i, (1 <= i < length (chain self))%nat -> check_block (chain self) i = true.
Proof.
  unfold is_chain_valid. rewrite forallb_forall. split.
  - intros H i Hi. apply H. apply in_seq. lia.
  - intros H i Hi. apply in_seq in Hi. apply H. lia.
Qed.

Lemma check_block_true (c : list Block.t) (i : nat) (cur prev : Block.t) :
  c !! i = Some cur -> c !! (i - 1)%nat = Some prev ->
  check_block c i = true <->
  Block.hash cur = Block.calculate_hash cur /\ Block.previous_hash cur = Block.hash prev.
Proof.
  intros Hc Hp. unfold check_block. rewrite Hc, Hp.
  destruct (String.eqb_spec (Block.hash cur) (Block.calculate_hash cur)) as [E1|E1];
    cbn [negb]; [|split; [discriminate | tauto]].
  destruct (String.eqb_spec (Block.previous_hash cur) (Block.hash prev)) as [E2|E2];
    cbn [negb]; [tauto | split; [discriminate | tauto]].
Qed.

Lemma invariant_valid (self : EnergyBlockchain.t) :
  chain_invariant (chain self) -> is_chain_valid self = true.
Proof.
  intros [Hg Hl Hh Hi]. apply is_chain_valid_true. intros i Hi'.
  destruct (lookup_lt_is_Some_2 (chain self) i) as [cur Hc]; [lia|].
  destruct (lookup_lt_is_Some_2 (chain self) (i - 1)) as [prev Hp]; [lia|].
  rewrite (check_block_true _ _ _ _ Hc Hp). split; [eauto|].
  apply (Hl (i - 1)%nat); [|exact Hp].
  replace (S (i - 1)) with i by lia. exact Hc.
Qed.

(** ** The library models on known values *)

Example text_known :
  Json.text [233; 8364; 127; 1114111; 65535; 256]%Z =
  String Json.quote
    ("\u00e9\u20ac\u007f\udbff\udfff\uffff\u0100" +:+ String Json.quote "").
Proof. vm_compute. reflexivity. Qed.

Example sha256_abc :
  SHA256.hexdigest "abc" =
  "ba7816bf8f01cfea414140de5dae2223b00361a396177a9cb410ff61f20015ad".
Proof. vm_compute. reflexivity. Qed.

Example sha256_empty :
  SHA256.hexdigest "" =
  "e3b0c44298fc1c149afbf4c8996fb92427ae41e4649b934ca495991b7852b855".
Proof. vm_compute. reflexivity. Qed.

Example sha256_two_blocks :
  SHA256.hexdigest "abcdbcdecdefdefgefghfghighijhijkijkljklmklmnlmnomnopnopq" =
  "248d6a61d20638b8e5c026930c3e6039a33ce45964ff2167f6ecedd419db06c1".
Proof. vm_compute. reflexivity. Qed.

Example float_repr_values :
  map Float.repr [0.1; 0.5; 5; 3.06; 0.1 + 0.2; 1e16; 1e15; 0.0001; 0.00001; 1e23; 5e-324]%float =
  ["0.1"; "0.5"; "5.0"; "3.06"; "0.30000000000000004"; "1e+16"; "1000000000000000.0";
   "0.0001"; "1e-05"; "1e+23"; "5e-324"].
Proof. vm_compute. reflexivity. Qed.

Example float_of_int_values :
  map Float.of_int [0; 10; -3; 2 ^ 53 + 1; 2 ^ 1024]%Z =
  [Ok 0; Ok 10; Ok (-3); Ok 9007199254740992; Raise OverflowError]%float.
Proof. vm_compute. reflexivity. Qed.

Example json_escape_values :
  map Json.escape ["A"; String (ascii_of_nat 10) "x"; String (ascii_of_nat 233) ""] =
  ["A"; String Json.backslash "nx"; String Json.backslash "u00e9"].
Proof. vm_compute. reflexivity. Qed.

Example slice_values :
  map (slice_to "abcdef") [0; 2; 9; -1; -6; -7]%Z = [""; "ab"; "abcdef"; "abcde"; ""; ""] /\
  map (repeat "0") [-1; 0; 3]%Z = [""; ""; "000"].
Proof. split; reflexivity. Qed.

(** ** The concrete runs are runs of the program *)

Example genesis_digest :
  Block.calculate_hash Demo.genesis =
  "51d16610b16323bd9a11f710f3179f17846c4a3cc3849c095d9e139575b751c1".
Proof. vm_compute. reflexivity. Qed.


Lemma fresh_init : EnergyBlockchain.init 100 1 Demo.now0 = Ok Demo.fresh.
Proof. vm_compute. reflexivity. Qed.

Lemma sealed_seal :
  mine_pending_transactions 100 (add_transaction Demo.fresh Demo.trade) "M" Demo.now1 =
  Ok (Demo.sealed, None).
Proof. vm_compute. reflexivity. Qed.

Lemma trade_executed : executed Demo.trade.
Proof. exists Demo.contract. reflexivity. Qed.

Lemma fresh_reachable (P : tx -> Prop) : reachable_from P Demo.fresh.
Proof. eapply reachable_init, fresh_init. Qed.

Lemma sealed_reachable (P : tx -> Prop) : P Demo.trade -> reachable_from P Demo.sealed.
Proof.
  intros Ht. eapply reachable_seal; [|exact sealed_seal].
  apply reachable_submit; [apply fresh_reachable | exact Ht].
Qed.

(** ** The claims *)

(** C2. In every ledger reachable by construction followed by submit and
    seal operations the chain is not empty, its first block has index 0 and
    previous hash ["0"], every later block carries the hash of its
    predecessor as [previous_hash] and a [hash] that is the digest of its
    own fields, and [is_chain_valid] answers [true]. *)
Theorem reachable_chain_valid (self : EnergyBlockchain.t) :
  reachable self ->
  chain self <> [] /\
  (exists genesis, chain self !! 0%nat = Some genesis /\
     Block.index genesis = 0%Z /\ Block.previous_hash genesis = "0") /\
  (forall i current_block previous_block,
     (1 <= i)%nat ->
     chain self !! i = Some current_block ->
     chain self !! (i - 1)%nat = Some previous_block ->
     Block.previous_hash current_block = Block.hash previous_block /\
     Block.hash current_block = Block.calculate_hash current_block) /\
  is_chain_valid self = true.
Proof.
  intros Hr. pose proof (reachable_invariant _ _ Hr) as Hinv.
  destruct Hinv as [Hg Hl Hh Hi] eqn:E. clear E.
  split; [|split; [exact Hg|split]].
  - destruct Hg as (g & H0 & _). intros Hnil. rewrite Hnil in H0. discriminate.
  - intros i cur prev Hi' Hc Hp. split; [|eauto].
    apply (Hl (i - 1)%nat); [|exact Hp].
    replace (S (i - 1)) with i by lia. exact Hc.
  - apply invariant_valid. split; assumption.
Qed.

Lemma reachable_chain_valid_witness :
  chain Demo.sealed <> [] /\
  (exists genesis, chain Demo.sealed !! 0%nat = Some genesis /\
     Block.index genesis = 0%Z /\ Block.previous_hash genesis = "0") /\
  (forall i current_block previous_block,
     (1 <= i)%nat ->
     chain Demo.sealed !! i = Some current_block ->
     chain Demo.sealed !! (i - 1)%nat = Some previous_block ->
     Block.previous_hash current_block = Block.hash previous_block /\
     Block.hash current_block = Block.calculate_hash current_block) /\
  is_chain_valid Demo.sealed = true.
Proof. apply (reachable_chain_valid Demo.sealed). apply sealed_reachable. exact I. Defined.


(** C9. [is_chain_valid] does not check the first block against its own
    digest: in a reachable ledger, replacing the first block by any block
    with the same stored hash leaves [is_chain_valid] answering [true]. *)
Theorem genesis_not_rechecked (self : EnergyBlockchain.t) (genesis b0 : Block.t) :
  reachable self ->
  chain self !! 0%nat = Some genesis ->
  Block.hash b0 = Block.hash genesis ->
  is_chain_valid (tamper self 0 b0) = true.
Proof.
  intros Hr Hg Hhash.
  pose proof (reachable_invariant _ _ Hr) as [_ Hl Hh _].
  apply is_chain_valid_true. unfold tamper. cbn [chain set_chain].
  rewrite length_insert. intros i [Hi Hlt].
  destruct (lookup_lt_is_Some_2 (chain self) i) as [cur Hc]; [lia|].
  destruct (lookup_lt_is_Some_2 (chain self) (i - 1)) as [prev Hp]; [lia|].
  assert (Hc' : <[0%nat := b0]> (chain self) !! i = Some cur)
    by (rewrite list_lookup_insert_ne by lia; exact Hc).
  assert (Hlink : Block.previous_hash cur = Block.hash prev).
  { apply (Hl (i - 1)%nat); [|exact Hp]. replace (S (i - 1)) with i by lia. exact Hc. }
  destruct (decide (i = 1%nat)) as [->|Hne].
  - assert (Hp' : <[0%nat := b0]> (chain self) !! (1 - 1)%nat = Some b0)
      by (apply list_lookup_insert_eq; lia).
    rewrite (check_block_true _ _ _ _ Hc' Hp'). split; [eauto|].
    cbn in Hp. rewrite Hlink, Hhash. congruence.
  - assert (Hp' : <[0%nat := b0]> (chain self) !! (i - 1)%nat = Some prev)
      by (rewrite list_lookup_insert_ne by lia; exact Hp).
    rewrite (check_block_true _ _ _ _ Hc' Hp'). split; [eauto | exact Hlink].
Qed.

(** C7. With an empty pending pool [mine_pending_transactions] raises
    nothing, needs no proof-of-work, and returns with the ledger as it was:
    same chain, same empty pool. *)
Theorem seal_empty_pool (fuel : nat) (self : EnergyBlockchain.t) (miner_address now : string) :
  pending_transactions self = [] ->
  mine_pending_transactions fuel self miner_address now = Ok (self, None).
Proof. apply seal_empty. Qed.

Lemma seal_empty_pool_witness :
  mine_pending_transactions 0 Demo.fresh "M" Demo.now1 = Ok (Demo.fresh, None).
Proof. apply (seal_empty_pool 0 Demo.fresh "M" Demo.now1). reflexivity. Defined.



Lemma genesis_not_rechecked_witness :
  is_chain_valid (tamper Demo.sealed 0 Demo.forged_genesis) = true.
Proof.
  apply (genesis_not_rechecked Demo.sealed Demo.sealed_genesis Demo.forged_genesis).
  - apply sealed_reachable. exact I.
  - reflexivity.
  - reflexivity.
Defined.

(** C5. Whenever [mine_block] returns on a block built by the constructor,
    the hash of the block is the digest of its fields as they are then, and
    the first [difficulty] characters of that hash are all ['0']. With
    difficulty 0 it returns at once, whatever the fuel, with the block as
    it was and the nonce still 0. *)
Theorem mine_block_correct (index : Z) (timestamp : string) (transactions : list tx)
    (previous_hash : string) :
  let b := Block.init index timestamp transactions previous_hash in
  (forall fuel difficulty b',
     Block.mine_block fuel difficulty b = Some b' ->
     Block.hash b' = Block.calculate_hash b' /\
     leading_zeros difficulty (Block.hash b')) /\
  (forall fuel, Block.mine_block fuel 0 b = Some b) /\
  Block.nonce b = 0%Z.
Proof.
  intros b. split; [|split].
  - intros fuel d b' H.
    apply mine_block_spec in H as (_ & _ & _ & _ & _ & Hh & Hz).
    split; [apply Hh, init_hash | apply slice_to_zeros, Hz].
  - intros fuel. apply mine_block_done. rewrite slice_to_0. reflexivity.
  - reflexivity.
Qed.

Lemma mine_block_correct_witness :
  exists b',
    Block.mine_block 100 1 Demo.genesis = Some b' /\
    Block.nonce b' = 30%Z /\
    Block.hash b' = Block.calculate_hash b' /\
    leading_zeros 1 (Block.hash b').
Proof.
  destruct (mine_block_correct 0 Demo.now0 [] "0") as [H _].
  eexists. split; [vm_compute; reflexivity|]. split; [reflexivity|].
  apply (H 100%nat). vm_compute. reflexivity.
Defined.

(** C6, as the code has it. [mine_pending_transactions] returns no value:
    it answers [None] on both paths. With a pool that is not empty it
    returns exactly when the proof-of-work of the new block does, and the
    mined block is then the last element of the chain; the pool is reset
    to the reward record. *)
Theorem seal_returns_none (fuel : nat) (self self' : EnergyBlockchain.t)
    (miner_address now : string) (latest : Block.t) (r : option Block.t) :
  pending_transactions self <> [] ->
  last (chain self) = Some latest ->
  mine_pending_transactions fuel self miner_address now = Ok (self', r) <->
  r = None /\
  exists b,
    Block.mine_block fuel (difficulty self)
      (Block.init (Z.of_nat (length (chain self))) now (pending_transactions self)
                  (Block.hash latest)) = Some b /\
    last (chain self') = Some b /\
    self' = EnergyBlockchain.mk (chain self ++ [b]) [reward_transaction self miner_address]
                                (difficulty self) (mining_reward self).
Proof.
  intros Hp Hl. split.
  - intros H. apply seal_Ok in H as [(Hnil & _)|(_ & latest' & b & Hl' & Hb & -> & ->)];
      [contradiction|].
    assert (latest' = latest) as -> by congruence.
    split; [reflexivity|]. exists b. split; [exact Hb|]. split; [|reflexivity].
    cbn [chain]. apply last_snoc.
  - intros (-> & b & Hb & _ & ->). apply (seal_nonempty _ _ _ _ latest b); assumption.
Qed.

Lemma seal_returns_none_witness :
  (None : option Block.t) = None /\
  exists b,
    Block.mine_block 100 1
      (Block.init 1 Demo.now1 [Demo.trade] (Block.hash Demo.sealed_genesis)) = Some b /\
    last (chain Demo.sealed) = Some b /\
    Demo.sealed = EnergyBlockchain.mk (chain Demo.fresh ++ [b])
                    [reward_transaction (add_transaction Demo.fresh Demo.trade) "M"]
                    1 1%float.
Proof.
  apply (seal_returns_none 100 (add_transaction Demo.fresh Demo.trade) Demo.sealed
           "M" Demo.now1 Demo.sealed_genesis None).
  - intros H. apply (f_equal length) in H. discriminate H.
  - reflexivity.
  - exact sealed_seal.
Defined.

(** C6, as the claim states it, fails: sealing the pool of the scenario
    appends a block to the chain and returns [None], not that block. *)
Lemma seal_returns_block_counterexample :
  exists self' r b,
    pending_transactions (add_transaction Demo.fresh Demo.trade) = [Demo.trade] /\
    mine_pending_transactions 100 (add_transaction Demo.fresh Demo.trade) "M" Demo.now1 =
      Ok (self', r) /\
    last (chain self') = Some b /\
    length (chain self') = S (length (chain Demo.fresh)) /\
    r <> Some b.
Proof.
  exists Demo.sealed, None, Demo.sealed_block.
  split; [reflexivity|]. split; [exact sealed_seal|].
  split; [reflexivity|]. split; [reflexivity | discriminate].
Qed.

(** C10. Two calls of [execute] in a row return the same record, field
    for field (the timestamp is the one taken at construction, so it
    coincides too); the contract is [completed] after either call; and a
    ledger held next to the contract is not touched. *)
Theorem execute_twice (c : SmartContract.t) :
  let (c1, t1) := SmartContract.execute c in
  let (c2, t2) := SmartContract.execute c1 in
  t1 = t2 /\
  (forall key, t1 !! key = t2 !! key) /\
  SmartContract.status c1 = "completed" /\
  SmartContract.status c2 = "completed" /\
  (forall ledger : EnergyBlockchain.t,
     execute_beside (c, ledger) = ((c1, ledger), t1) /\
     execute_beside (c1, ledger) = ((c2, ledger), t2)).
Proof.
  unfold execute_beside, SmartContract.execute. cbn [fst snd].
  repeat split; reflexivity.
Qed.

(** C3. The scenario. A ledger is built with difficulty 1; one trade from
    [A] to [B] of 10 kWh at 0.5 per kWh (total cost 5.0) is submitted; [M]
    seals. Once the two proof-of-work searches come back within their fuel,
    with blocks [g] and [b], the constructor and the seal return, the chain
    is [[g; b]], of length 2, the pool holds exactly the reward record for
    [M], the balance of [A] is -5.0, the balance of [B] is 5.0, and the
    chain is valid. *)
Theorem scenario_one_trade (fuel0 fuel1 : nat) (contract_id created now0 now1 : string)
    (g b : Block.t) :
  let contract := SmartContract.init contract_id "A" "B" 10 0.5 created in
  let transaction := snd (SmartContract.execute contract) in
  Block.mine_block fuel0 1 (Block.init 0 now0 [] "0") = Some g ->
  Block.mine_block fuel1 1 (Block.init 1 now1 [transaction] (Block.hash g)) = Some b ->
  exists ledger0 ledger,
    EnergyBlockchain.init fuel0 1 now0 = Ok ledger0 /\
    mine_pending_transactions fuel1 (add_transaction ledger0 transaction) "M" now1 =
      Ok (ledger, None) /\
    transaction !! "total_cost" = Some (VFloat 5) /\
    chain ledger = [g; b] /\
    length (chain ledger) = 2%nat /\
    pending_transactions ledger = [reward_transaction ledger "M"] /\
    reward_transaction ledger "M" !! "type" = Some (VStr "mining_reward") /\
    reward_transaction ledger "M" !! "to" = Some (VStr "M") /\
    get_balance ledger "A" = Ok (-5)%float /\
    get_balance ledger "B" = Ok 5%float /\
    is_chain_valid ledger = true.
Proof.
  intros contract transaction Hg Hb.
  set (ledger0 := EnergyBlockchain.mk [g] [] 1 1%float).
  set (ledger := EnergyBlockchain.mk [g; b] [reward_transaction ledger0 "M"] 1 1%float).
  assert (H0 : EnergyBlockchain.init fuel0 1 now0 = Ok ledger0).
  { unfold EnergyBlockchain.init, create_genesis_block. cbn [difficulty].
    rewrite Hg. reflexivity. }
  assert (H1 : mine_pending_transactions fuel1 (add_transaction ledger0 transaction) "M" now1
               = Ok (ledger, None)).
  { apply (seal_nonempty fuel1 (add_transaction ledger0 transaction) "M" now1 g b).
    - discriminate.
    - reflexivity.
    - exact Hb. }
  assert (Hr : reachable ledger).
  { eapply reachable_seal; [|exact H1].
    apply reachable_submit; [eapply reachable_init; exact H0 | exact I]. }
  exists ledger0, ledger.
  apply mine_block_spec in Hg as (_ & _ & Hgt & _).
  apply mine_block_spec in Hb as (_ & _ & Hbt & _).
  cbn [Block.transactions Block.init Block.set_hash] in Hgt, Hbt.
  split; [exact H0|]. split; [exact H1|].
  split; [reflexivity|]. split; [reflexivity|]. split; [reflexivity|].
  split; [reflexivity|]. split; [reflexivity|]. split; [reflexivity|].
  split; [|split].
  - unfold get_balance, replay, ledger. cbn [chain foldM]. rewrite Hgt, Hbt. reflexivity.
  - unfold get_balance, replay, ledger. cbn [chain foldM]. rewrite Hgt, Hbt. reflexivity.
  - apply invariant_valid, (reachable_invariant _ _ Hr).
Qed.

Lemma scenario_one_trade_witness :
  exists ledger0 ledger,
    EnergyBlockchain.init 100 1 Demo.now0 = Ok ledger0 /\
    mine_pending_transactions 100 (add_transaction ledger0 Demo.trade) "M" Demo.now1 =
      Ok (ledger, None) /\
    Demo.trade !! "total_cost" = Some (VFloat 5) /\
    chain ledger = [Demo.sealed_genesis; Demo.sealed_block] /\
    length (chain ledger) = 2%nat /\
    pending_transactions ledger = [reward_transaction ledger "M"] /\
    reward_transaction ledger "M" !! "type" = Some (VStr "mining_reward") /\
    reward_transaction ledger "M" !! "to" = Some (VStr "M") /\
    get_balance ledger "A" = Ok (-5)%float /\
    get_balance ledger "B" = Ok 5%float /\
    is_chain_valid ledger = true.
Proof.
  apply (scenario_one_trade 100 100 "SC001" "2024-05-01T10:00:00.123456"
           Demo.now0 Demo.now1 Demo.sealed_genesis Demo.sealed_block).
  - vm_compute. reflexivity.
  - vm_compute. reflexivity.
Defined.

(** ** Transaction records *)

Lemma executed_cost_is_product (t : tx) : executed t -> cost_is_product t.
Proof.
  intros [c ->]. unfold cost_is_product.
  exists (VFloat (SmartContract.energy_kwh c)), (VFloat (SmartContract.price c)),
         (VFloat (SmartContract.energy_kwh c * SmartContract.price c)),
         (VFloat (SmartContract.energy_kwh c * SmartContract.price c)).
  repeat split; try reflexivity. left. reflexivity.
Qed.

Lemma in_all_transactions (self : EnergyBlockchain.t) (t : tx) :
  In t (all_transactions self) <->
  In t (pending_transactions self) \/
  exists block, In block (chain self) /\ In t (Block.transactions block).
Proof.
  unfold all_transactions. rewrite in_app_iff, in_concat. split.
  - intros [H|(l & Hl & Ht)]; [left; exact H|].
    apply in_map_iff in Hl as (block & <- & Hb). right. eauto.
  - intros [H|(block & Hb & Ht)]; [left; exact H|].
    right. exists (Block.transactions block). split; [|exact Ht].
    apply in_map. exact Hb.
Qed.

Lemma reachable_records (self : EnergyBlockchain.t) :
  reachable_from executed self ->
  mining_reward self = 1%float /\
  forall t, In t (all_transactions self) -> contract_or_reward self t.
Proof.
  induction 1 as [fuel d now self H | self t Hr [IHm IH] Pt
                 | fuel self miner now self' r Hr [IHm IH] H].
  - apply init_Ok in H as (g & Hg & ->). split; [reflexivity|].
    apply mine_block_spec in Hg as (_ & _ & Hgt & _).
    intros t Ht. apply in_all_transactions in Ht as [[]|(block & [<-|[]] & Ht)].
    rewrite Hgt in Ht. destruct Ht.
  - split; [exact IHm|]. intros t' Ht'.
    apply in_all_transactions in Ht' as [Hp|Hc].
    + cbn [add_transaction pending_transactions set_pending_transactions] in Hp.
      apply in_app_iff in Hp as [Hp|[<-|[]]]; [|left; exact Pt].
      apply (IH t'), in_all_transactions. left. exact Hp.
    + apply (IH t'), in_all_transactions. right. exact Hc.
  - apply seal_Ok in H as [(_ & -> & _)|(_ & latest & b & Hl & Hb & -> & _)];
      [split; assumption|].
    split; [exact IHm|].
    apply mine_block_spec in Hb as (_ & _ & Hbt & _).
    intros t Ht. apply in_all_transactions in Ht as [Hp|(block & Hblock & Ht)].
    + destruct Hp as [<-|[]]. right. exists miner. reflexivity.
    + cbn [chain] in Hblock. apply in_app_iff in Hblock as [Hblock|[<-|[]]].
      * destruct (IH t) as [He|[m ->]]; [| left; exact He | right; exists m; reflexivity].
        apply in_all_transactions. right. eauto.
      * rewrite Hbt in Ht. cbn [Block.transactions Block.init Block.set_hash] in Ht.
        destruct (IH t) as [He|[m ->]]; [| left; exact He | right; exists m; reflexivity].
        apply in_all_transactions. left. exact Ht.
Qed.

(** C4, as the code has it. When only records returned by
    [SmartContract.execute] are submitted, every record of the pending pool
    and of the chain is such a record, and its [total_cost] is its
    [energy_kwh] times its [price_per_kwh], or it is a reward record of
    [mine_pending_transactions], whose [total_cost] is the mining reward 1.0
    next to an [energy_kwh] and a [price_per_kwh] of 0. *)
Theorem contract_costs (self : EnergyBlockchain.t) (t : tx) :
  reachable_from executed self ->
  In t (all_transactions self) ->
  (executed t /\ cost_is_product t) \/
  ((exists miner_address, t = reward_transaction self miner_address) /\
   t !! "total_cost" = Some (VFloat 1) /\
   t !! "energy_kwh" = Some (VInt 0) /\
   t !! "price_per_kwh" = Some (VInt 0)).
Proof.
  intros Hr Ht. destruct (reachable_records self Hr) as [Hm Hall].
  destruct (Hall t Ht) as [He|[m ->]].
  - left. split; [exact He | apply executed_cost_is_product, He].
  - right. split; [exists m; reflexivity|].
    unfold reward_transaction. rewrite Hm. repeat split; reflexivity.
Qed.

Lemma contract_costs_witness :
  (executed Demo.trade /\ cost_is_product Demo.trade) \/
  ((exists miner_address, Demo.trade = reward_transaction Demo.sealed miner_address) /\
   Demo.trade !! "total_cost" = Some (VFloat 1) /\
   Demo.trade !! "energy_kwh" = Some (VInt 0) /\
   Demo.trade !! "price_per_kwh" = Some (VInt 0)).
Proof.
  apply (contract_costs Demo.sealed Demo.trade).
  - apply sealed_reachable. exact trade_executed.
  - apply in_all_transactions. right. exists Demo.sealed_block.
    split; [right; left; reflexivity | left; reflexivity].
Defined.

(** C4, as the claim states it, fails on the reward record: after the
    scenario is sealed the pool holds a record with [total_cost] 1.0 while
    its [energy_kwh] times its [price_per_kwh] is 0. *)
Lemma reward_cost_counterexample :
  exists t,
    reachable_from executed Demo.sealed /\
    In t (all_transactions Demo.sealed) /\
    t !! "total_cost" = Some (VFloat 1) /\
    t !! "energy_kwh" = Some (VInt 0) /\
    t !! "price_per_kwh" = Some (VInt 0) /\
    num_mul (VInt 0) (VInt 0) = Ok (VInt 0) /\
    num_eqb (VFloat 1) (VInt 0) = false /\
    ~ cost_is_product t.
Proof.
  exists (reward_transaction Demo.sealed "M").
  split; [apply sealed_reachable, trade_executed|].
  split; [apply in_all_transactions; left; left; reflexivity|].
  split; [reflexivity|]. split; [reflexivity|]. split; [reflexivity|].
  split; [reflexivity|]. split; [reflexivity|].
  intros (e & p & v & c & He & Hp & Hc & Hm & Hor).
  change (Some (VInt 0) = Some e) in He. injection He as <-.
  change (Some (VInt 0) = Some p) in Hp. injection Hp as <-.
  change (Some (VFloat 1) = Some c) in Hc. injection Hc as <-.
  injection Hm as <-.
  destruct Hor as [Hor|Hor]; discriminate Hor.
Qed.

(** ** Balances *)

Section ExactReplay.
Local Open Scope Qc_scope.

Lemma qsum_add {A : Type} (f g : A -> Qc) (l : list A) :
  qsum (fun a => f a + g a) l = qsum f l + qsum g l.
Proof.
  induction l as [|a l IH]; cbn [qsum fold_right]; [ring|].
  fold (qsum (fun a => f a + g a) l) (qsum f l) (qsum g l). rewrite IH. ring.
Qed.

Lemma qsum_zero {A : Type} (f : A -> Qc) (l : list A) :
  (forall a, In a l -> f a = Q2Qc 0) -> qsum f l = Q2Qc 0.
Proof.
  induction l as [|a l IH]; intros H; cbn [qsum fold_right]; [reflexivity|].
  fold (qsum f l). rewrite IH, H; [ring | left; reflexivity |].
  intros a' Ha'. apply H. right. exact Ha'.
Qed.

(** the sum of an indicator over a duplicate-free list *)
Lemma qsum_indicator (b : string) (q : Qc) (l : list string) :
  NoDup l ->
  qsum (fun a => if String.eqb b a then q else Q2Qc 0) l =
  if bool_decide (b ∈ l) then q else Q2Qc 0.
Proof.
  induction 1 as [|a l Hnotin Hnd IH]; [reflexivity|].
  cbn [qsum fold_right].
  fold (qsum (fun a => if String.eqb b a then q else Q2Qc 0) l). rewrite IH.
  destruct (String.eqb_spec b a) as [->|Hne].
  - rewrite (bool_decide_eq_true_2 (a ∈ a :: l)) by (left).
    rewrite (bool_decide_eq_false_2 (a ∈ l)) by exact Hnotin. ring.
  - destruct (decide (b ∈ l)) as [Hin|Hnin].
    + rewrite (bool_decide_eq_true_2 (b ∈ l)) by exact Hin.
      rewrite (bool_decide_eq_true_2 (b ∈ a :: l)) by (right; exact Hin). ring.
    + rewrite (bool_decide_eq_false_2 (b ∈ l)) by exact Hnin.
      rewrite (bool_decide_eq_false_2 (b ∈ a :: l)); [ring|].
      intros Hin. apply elem_of_cons in Hin as [->|Hin]; [apply Hne; reflexivity | tauto].
Qed.

Lemma get_is_str (t : tx) (key a b : string) :
  t !! key = Some (VStr b) -> get_is t key a = String.eqb b a.
Proof. unfold get_is. intros ->. reflexivity. Qed.

Lemma qsum_ext {A : Type} (f g : A -> Qc) (l : list A) :
  (forall a, f a = g a) -> qsum f l = qsum g l.
Proof.
  intros H. induction l as [|a l IH]; cbn [qsum fold_right]; [reflexivity|].
  fold (qsum f l) (qsum g l). rewrite IH, H. reflexivity.
Qed.

(** One closed transaction moves its amount from one listed address to
    another: over the list the changes cancel. *)
Lemma delta_closed (addresses : list string) (t : tx) :
  NoDup addresses ->
  closed_transaction addresses t ->
  qsum (fun a => delta a t) addresses = Q2Qc 0.
Proof.
  intros Hnd (a & b & q & Hfrom & Hto & Ha & Hb & Hq).
  rewrite (qsum_ext _ (fun x => (if String.eqb b x then q else Q2Qc 0)
                                + (if String.eqb a x then - q else Q2Qc 0))).
  - rewrite qsum_add, !qsum_indicator by exact Hnd.
    rewrite (bool_decide_eq_true_2 _ Ha), (bool_decide_eq_true_2 _ Hb). ring.
  - intros x. unfold delta, amount.
    rewrite (get_is_str _ _ _ _ Hto), (get_is_str _ _ _ _ Hfrom), Hq.
    destruct (String.eqb b x), (String.eqb a x); ring.
Qed.

Lemma replay_transaction_exact (addresses : list string) (address : string)
    (balance : Qc) (t : tx) :
  closed_transaction addresses t ->
  replay_transaction exact_iadd exact_isub address balance t =
  Ok (balance + delta address t).
Proof.
  intros (a & b & q & Hfrom & Hto & Ha & Hb & Hq).
  unfold replay_transaction, delta, amount, exact_iadd, exact_isub.
  rewrite Hq. destruct (get_is t "to" address), (get_is t "from" address);
    cbn [mbind result_bind]; f_equal; ring.
Qed.

Lemma replay_block_exact (addresses : list string) (address : string)
    (balance : Qc) (txs : list tx) :
  Forall (closed_transaction addresses) txs ->
  foldM (replay_transaction exact_iadd exact_isub address) balance txs =
  Ok (balance + qsum (delta address) txs).
Proof.
  intros H. revert balance. induction H as [|t txs Ht Htxs IH]; intros balance.
  - cbn [foldM qsum fold_right]. f_equal. ring.
  - cbn [foldM qsum fold_right]. fold (qsum (delta address) txs).
    rewrite (replay_transaction_exact addresses) by exact Ht.
    cbn [mbind result_bind]. rewrite IH. f_equal. ring.
Qed.

Lemma replay_chain_exact (addresses : list string) (address : string)
    (balance : Qc) (c : list Block.t) :
  Forall (fun block => Forall (closed_transaction addresses) (Block.transactions block)) c ->
  foldM (fun balance block =>
           foldM (replay_transaction exact_iadd exact_isub address) balance
                 (Block.transactions block)) balance c =
  Ok (balance + chain_delta c address).
Proof.
  intros H. revert balance. induction H as [|block c Hb Hc IH]; intros balance.
  - cbn [foldM chain_delta qsum fold_right]. f_equal. ring.
  - cbn [foldM]. rewrite (replay_block_exact addresses) by exact Hb.
    cbn [mbind result_bind]. rewrite IH. f_equal.
    unfold chain_delta. cbn [qsum fold_right].
    fold (qsum (block_delta address) c). unfold block_delta at 2. ring.
Qed.

Lemma chain_delta_closed (addresses : list string) (c : list Block.t) :
  NoDup addresses ->
  Forall (fun block => Forall (closed_transaction addresses) (Block.transactions block)) c ->
  qsum (chain_delta c) addresses = Q2Qc 0.
Proof.
  intros Hnd H. induction H as [|block c Hb Hc IH].
  - apply qsum_zero. reflexivity.
  - rewrite (qsum_ext _ (fun a => block_delta a block + chain_delta c a))
      by reflexivity.
    rewrite qsum_add, IH.
    assert (E : qsum (fun a => block_delta a block) addresses = Q2Qc 0).
    { unfold block_delta. induction Hb as [|t txs Ht Htxs IHt].
      - apply qsum_zero. reflexivity.
      - rewrite (qsum_ext _ (fun a => delta a t + qsum (delta a) txs)) by reflexivity.
        rewrite qsum_add, IHt, (delta_closed addresses t Hnd Ht). ring. }
    rewrite E. ring.
Qed.

Lemma get_balance_exact_closed (self : EnergyBlockchain.t) (addresses : list string)
    (address : string) :
  Forall (fun block => Forall (closed_transaction addresses) (Block.transactions block))
         (chain self) ->
  get_balance_exact self address = Ok (Q2Qc 0 + chain_delta (chain self) address).
Proof. intros H. apply (replay_chain_exact addresses). exact H. Qed.

Lemma sum_exact_from (self : EnergyBlockchain.t) (addresses listed : list string)
    (acc : Qc) :
  Forall (fun block => Forall (closed_transaction addresses) (Block.transactions block))
         (chain self) ->
  foldM (fun acc a => b ← get_balance_exact self a; Ok (acc + b)) acc listed =
  Ok (acc + qsum (chain_delta (chain self)) listed).
Proof.
  intros H. revert acc. induction listed as [|a listed IH]; intros acc.
  - cbn [foldM qsum fold_right]. f_equal. ring.
  - cbn [foldM]. rewrite (get_balance_exact_closed self addresses a H).
    cbn [mbind result_bind]. rewrite IH. f_equal.
    cbn [qsum fold_right]. fold (qsum (chain_delta (chain self)) listed). ring.
Qed.
End ExactReplay.

(** Without rounding the balances of a closed chain cancel. *)
Lemma exact_balance_conservation (self : EnergyBlockchain.t) (addresses : list string) :
  NoDup addresses ->
  Forall (fun block => Forall (closed_transaction addresses) (Block.transactions block))
         (chain self) ->
  sum_balances_exact self addresses = Ok (Q2Qc 0).
Proof.
  intros Hnd H. unfold sum_balances_exact.
  rewrite (sum_exact_from self addresses addresses _ H).
  rewrite (chain_delta_closed addresses (chain self) Hnd H). f_equal; ring.
Qed.

(** *** The float replay against the exact one *)

Lemma track_Ok op opq (t t' : float * Qc * bool) (v : value) :
  track op opq t v = Ok t' ->
  exists x q, to_float v = Ok x /\ exact_value v = Ok q /\
    t' = (op (fst (fst t)) x, opq (snd (fst t)) q,
          snd t && denotes (op (fst (fst t)) x) (opq (snd (fst t)) q)).
Proof.
  unfold track. intros H. apply bind_Ok in H as (x & Hx & H).
  apply bind_Ok in H as (q & Hq & H). destruct t as [[bf bq] ok].
  injection H as <-. exists x, q. auto.
Qed.

Lemma replay_transaction_tracked (address : string) (t t' : float * Qc * bool)
    (transaction : tx) :
  replay_transaction (track PrimFloat.add Qcplus) (track PrimFloat.sub Qcminus)
    address t transaction = Ok t' ->
  replay_transaction float_iadd float_isub address (fst (fst t)) transaction
    = Ok (fst (fst t')) /\
  replay_transaction exact_iadd exact_isub address (snd (fst t)) transaction
    = Ok (snd (fst t')) /\
  (snd t' = true -> snd t = true) /\
  (sound t -> sound t').
Proof.
  unfold replay_transaction, float_iadd, float_isub, exact_iadd, exact_isub.
  destruct (get_is transaction "to" address), (get_is transaction "from" address);
    cbn [mbind result_bind]; intros H.
  - apply bind_Ok in H as (t1 & H1 & H2).
    apply track_Ok in H1 as (x1 & q1 & Hx1 & Hq1 & ->).
    apply track_Ok in H2 as (x2 & q2 & Hx2 & Hq2 & ->).
    rewrite Hx1 in Hx2. injection Hx2 as <-. rewrite Hq1 in Hq2. injection Hq2 as <-.
    cbn [fst snd] in *. rewrite Hx1, Hq1. cbn [mbind result_bind fst snd].
    repeat split.
    + intros E. apply andb_true_iff in E as [E _]. apply andb_true_iff in E as [E _]. exact E.
    + intros _ E. apply andb_true_iff in E as [_ E]. exact E.
  - apply bind_Ok in H as (t1 & H1 & H2). injection H2 as <-.
    apply track_Ok in H1 as (x1 & q1 & Hx1 & Hq1 & ->).
    cbn [fst snd] in *. rewrite Hx1, Hq1. cbn [mbind result_bind fst snd].
    repeat split.
    + intros E. apply andb_true_iff in E as [E _]. exact E.
    + intros _ E. apply andb_true_iff in E as [_ E]. exact E.
  - apply track_Ok in H as (x1 & q1 & Hx1 & Hq1 & ->).
    cbn [fst snd] in *. rewrite Hx1, Hq1. cbn [mbind result_bind fst snd].
    repeat split.
    + intros E. apply andb_true_iff in E as [E _]. exact E.
    + intros _ E. apply andb_true_iff in E as [_ E]. exact E.
  - injection H as <-. repeat split; auto.
Qed.

Lemma replay_tracked (address : string) (c : list Block.t) (t t' : float * Qc * bool) :
  foldM (fun balance block =>
           foldM (replay_transaction (track PrimFloat.add Qcplus) (track PrimFloat.sub Qcminus)
                    address) balance (Block.transactions block)) t c = Ok t' ->
  foldM (fun balance block =>
           foldM (replay_transaction float_iadd float_isub address) balance
                 (Block.transactions block)) (fst (fst t)) c = Ok (fst (fst t')) /\
  foldM (fun balance block =>
           foldM (replay_transaction exact_iadd exact_isub address) balance
                 (Block.transactions block)) (snd (fst t)) c = Ok (snd (fst t')) /\
  (snd t' = true -> snd t = true) /\
  (sound t -> sound t').
Proof.
  assert (Hblock : forall txs t t',
    foldM (replay_transaction (track PrimFloat.add Qcplus) (track PrimFloat.sub Qcminus)
             address) t txs = Ok t' ->
    foldM (replay_transaction float_iadd float_isub address) (fst (fst t)) txs
      = Ok (fst (fst t')) /\
    foldM (replay_transaction exact_iadd exact_isub address) (snd (fst t)) txs
      = Ok (snd (fst t')) /\
    (snd t' = true -> snd t = true) /\
    (sound t -> sound t')).
  { induction txs as [|transaction txs IH]; intros t0 t0' H.
    - injection H as <-. auto.
    - cbn [foldM] in H |- *. apply bind_Ok in H as (t1 & H1 & H).
      apply replay_transaction_tracked in H1 as (Hf & He & Hok & Hs).
      apply IH in H as (Hf' & He' & Hok' & Hs').
      rewrite Hf, He. cbn [mbind result_bind].
      split; [exact Hf'|]. split; [exact He'|].
      split; [intros E; apply Hok, Hok', E | intros S; apply Hs', Hs, S]. }
  revert t t'. induction c as [|block c IH]; intros t t' H.
  - injection H as <-. auto.
  - cbn [foldM] in H |- *. apply bind_Ok in H as (t1 & H1 & H).
    apply Hblock in H1 as (Hf & He & Hok & Hs).
    apply IH in H as (Hf' & He' & Hok' & Hs').
    rewrite Hf, He. cbn [mbind result_bind].
    split; [exact Hf'|]. split; [exact He'|].
    split; [intros E; apply Hok, Hok', E | intros S; apply Hs', Hs, S].
Qed.

Lemma denotes_zero : denotes 0%float (Q2Qc 0) = true.
Proof. reflexivity. Qed.

Lemma get_balance_tracked_Ok (self : EnergyBlockchain.t) (address : string)
    (x : float) (q : Qc) (ok : bool) :
  get_balance_tracked self address = Ok (x, q, ok) ->
  get_balance self address = Ok x /\
  get_balance_exact self address = Ok q /\
  (ok = true -> denotes x q = true).
Proof.
  unfold get_balance_tracked, get_balance, get_balance_exact, replay. intros H.
  apply replay_tracked in H as (Hf & He & _ & Hs).
  split; [exact Hf|]. split; [exact He|].
  apply Hs. intros _. exact denotes_zero.
Qed.

Lemma sum_balances_tracked_Ok (self : EnergyBlockchain.t) (addresses : list string)
    (x : float) (q : Qc) :
  sum_balances_tracked self addresses = Ok (x, q, true) ->
  sum_balances self addresses = Ok x /\
  sum_balances_exact self addresses = Ok q /\
  denotes x q = true.
Proof.
  unfold sum_balances_tracked, sum_balances, sum_balances_exact.
  assert (Hgen : forall t t',
    foldM (fun acc a =>
           b ← get_balance_tracked self a;
           let '(accf, accq, ok) := acc in
           let '(bf, bq, okb) := b in
           Ok ((accf + bf)%float, (accq + bq)%Qc,
               ok && okb && denotes (accf + bf)%float (accq + bq)%Qc)) t addresses = Ok t' ->
    foldM (fun acc a => b ← get_balance self a; Ok (acc + b)%float) (fst (fst t)) addresses
      = Ok (fst (fst t')) /\
    foldM (fun acc a => b ← get_balance_exact self a; Ok (acc + b)%Qc) (snd (fst t)) addresses
      = Ok (snd (fst t')) /\
    (sound t -> sound t')).
  { induction addresses as [|a addresses IH]; intros t t' H.
    - injection H as <-. auto.
    - cbn [foldM] in H |- *. apply bind_Ok in H as (t1 & H1 & H).
      apply bind_Ok in H1 as ([[bf bq] okb] & Hb & H1).
      destruct t as [[accf accq] ok]. injection H1 as <-.
      apply get_balance_tracked_Ok in Hb as (Hf & He & _).
      apply IH in H as (Hf' & He' & Hs').
      cbn [fst snd] in *. rewrite Hf, He. cbn [mbind result_bind].
      split; [exact Hf'|]. split; [exact He'|].
      intros _. apply Hs'. intros E. cbn [fst snd] in E |- *.
      apply andb_true_iff in E as [_ E]. exact E. }
  intros H. apply Hgen in H as (Hf & He & Hs).
  split; [exact Hf|]. split; [exact He|].
  apply Hs; [intros _; exact denotes_zero | reflexivity].
Qed.

Lemma denotes_zero_eqb (x : float) : denotes x (Q2Qc 0) = true -> PrimFloat.eqb x 0 = true.
Proof.
  unfold denotes, exact_float. rewrite FloatAxioms.eqb_spec.
  destruct (Prim2SF x) as [s|s| |s m e]; try discriminate.
  - intros _. destruct s; reflexivity.
  - intros H. apply Qeq_bool_eq in H. exfalso.
    change (this (Q2Qc (inject_Z (if s then Z.neg m else Z.pos m) * 2 ^ e)) == this (Q2Qc 0))
      in H.
    apply Qc_is_canon, Q2Qc_eq_iff in H.
    apply Qmult_integral in H as [H|H].
    + destruct s; discriminate H.
    + revert H. apply Qpower_not_0. discriminate.
Qed.

(** C8, as the code has it. The replay credits [to] and debits [from] by
    the same [total_cost]. When every chained transaction names a [from]
    and a [to] of the duplicate-free address list and carries a finite
    number as [total_cost], the balances replayed without rounding sum to
    exactly zero; and whenever no addition or subtraction of the replay or
    of the summation rounds, the sum of the floats [get_balance] returns is
    zero. *)
Theorem balance_conservation (self : EnergyBlockchain.t) (addresses : list string) :
  NoDup addresses ->
  Forall (fun block => Forall (closed_transaction addresses) (Block.transactions block))
         (chain self) ->
  sum_balances_exact self addresses = Ok (Q2Qc 0) /\
  forall x q,
    sum_balances_tracked self addresses = Ok (x, q, true) ->
    sum_balances self addresses = Ok x /\ PrimFloat.eqb x 0 = true.
Proof.
  intros Hnd H. pose proof (exact_balance_conservation self addresses Hnd H) as Hexact.
  split; [exact Hexact|]. intros x q Ht.
  apply sum_balances_tracked_Ok in Ht as (Hf & He & Hd).
  split; [exact Hf|]. apply denotes_zero_eqb.
  rewrite Hexact in He. injection He as <-. exact Hd.
Qed.

(** one goal for each transaction of a concrete chain *)
Ltac each_transaction := repeat first [apply List.Forall_nil | apply List.Forall_cons].

Ltac closed_chain :=
  each_transaction;
  [> unfold closed_transaction; do 3 eexists;
     (split; [reflexivity|]); (split; [reflexivity|]);
     (split; [apply list_elem_of_In; cbn; tauto|]);
     (split; [apply list_elem_of_In; cbn; tauto|]);
     vm_compute; reflexivity ..].

Lemma three_reachable : reachable Demo.three.
Proof.
  apply (reachable_seal _ 0%nat Demo.three_pending "M" Demo.now1 Demo.three None).
  - unfold Demo.three_pending. repeat (apply reachable_submit; [|exact I]).
    apply (reachable_init _ 0%nat 0%Z Demo.now0 Demo.fresh0). vm_compute. reflexivity.
  - vm_compute. reflexivity.
Qed.

Lemma gifted_reachable : reachable Demo.gifted.
Proof.
  apply (reachable_seal _ 0%nat (add_transaction Demo.fresh0 Demo.gift) "M" Demo.now1
           Demo.gifted None).
  - apply reachable_submit; [|exact I].
    apply (reachable_init _ 0%nat 0%Z Demo.now0 Demo.fresh0). vm_compute. reflexivity.
  - vm_compute. reflexivity.
Qed.

Lemma balance_conservation_witness :
  sum_balances_exact Demo.halves ["A"; "B"; "C"; "D"] = Ok (Q2Qc 0) /\
  sum_balances Demo.halves ["A"; "B"; "C"; "D"] = Ok 0%float /\
  PrimFloat.eqb 0 0 = true.
Proof.
  destruct (balance_conservation Demo.halves ["A"; "B"; "C"; "D"]) as [Hexact Hfloat].
  - apply (bool_decide_unpack _). vm_compute. exact I.
  - cbv [Demo.halves chain Block.transactions]. closed_chain.
  - split; [exact Hexact|]. eapply (Hfloat 0%float). vm_compute. reflexivity.
Defined.

(** The exact replay of the three trades of 0.1, 0.2 and 0.3 cancels, and
    the tracked replay reports that an operation rounded. *)
Example three_exact_and_rounded :
  sum_balances_exact Demo.three ["A"; "B"; "C"; "D"] = Ok (Q2Qc 0) /\
  exists x q, sum_balances_tracked Demo.three ["A"; "B"; "C"; "D"] = Ok (x, q, false).
Proof.
  split.
  - apply exact_balance_conservation.
    + apply (bool_decide_unpack _). vm_compute. exact I.
    + cbv [Demo.three chain Block.transactions]. closed_chain.
  - do 2 eexists. vm_compute. reflexivity.
Qed.

(** A chained record with a [to] and no [from] credits one address and
    debits none: the hypothesis that every record names both cannot be
    dropped, with or without rounding. *)
Example one_sided_record_unbalanced :
  reachable Demo.gifted /\
  no_network Demo.gifted /\
  covers ["B"] Demo.gifted /\
  sum_balances Demo.gifted ["B"] = Ok 5%float /\
  exists q, sum_balances_tracked Demo.gifted ["B"] = Ok (5%float, q, true) /\
            Qeq_bool q 5 = true.
Proof.
  split; [exact gifted_reachable|].
  split.
  { cbv [no_network Demo.gifted chain Block.transactions]. each_transaction.
    all: reflexivity. }
  split.
  { cbv [covers Demo.gifted chain Block.transactions]. each_transaction.
    all: intros k a [->| ->] H; vm_compute in H; [discriminate H | injection H as <-].
    all: apply list_elem_of_In; cbn; tauto. }
  split; [vm_compute; reflexivity|].
  eexists. split; [vm_compute; reflexivity | reflexivity].
Qed.

(** C8, as the claim states it, fails in binary64: with three trades from
    [A], of 0.1, 0.2 and 0.3, sealed in one block, no chained record is
    from [network], the four addresses are all that occur, and the float
    balances sum to about -1.1e-16, not to zero. *)
Lemma float_balance_counterexample :
  exists x,
    reachable Demo.three /\
    no_network Demo.three /\
    covers ["A"; "B"; "C"; "D"] Demo.three /\
    NoDup ["A"; "B"; "C"; "D"] /\
    sum_balances Demo.three ["A"; "B"; "C"; "D"] = Ok x /\
    PrimFloat.eqb x 0 = false /\
    PrimFloat.ltb x 0 = true.
Proof.
  eexists. split; [exact three_reachable|].
  split.
  { cbv [no_network Demo.three chain Block.transactions]. each_transaction.
    all: reflexivity. }
  split.
  { cbv [covers Demo.three chain Block.transactions]. each_transaction.
    all: intros k a [->| ->] H; vm_compute in H; injection H as <-.
    all: apply list_elem_of_In; cbn; tauto. }
  split; [apply (bool_decide_unpack _); vm_compute; exact I|].
  split; [vm_compute; reflexivity|].
  split; reflexivity.
Qed.

(** ** Further properties of the ledger *)

Lemma foldM_app {A B : Type} (f : B -> A -> result B) (b : B) (l1 l2 : list A) :
  foldM f b (l1 ++ l2)%list = foldM f b l1 ≫= fun b' => foldM f b' l2.
Proof.
  revert b. induction l1 as [|a l1 IH]; intros b; [reflexivity|].
  cbn [app foldM]. destruct (f b a) as [b1| |]; cbn [mbind result_bind]; [apply IH | reflexivity..].
Qed.

Lemma evolves_chain (self self' : EnergyBlockchain.t) :
  evolves self self' ->
  exists blocks, chain self' = (chain self ++ blocks)%list /\
                 difficulty self' = difficulty self /\
                 mining_reward self' = mining_reward self.
Proof.
  induction 1 as [|self' t He IH|fuel self' miner now self'' r He IH H].
  - exists []. rewrite app_nil_r. auto.
  - exact IH.
  - destruct IH as (blocks & Hc & Hd & Hm).
    apply seal_Ok in H as [(_ & -> & _)|(_ & latest & b & _ & _ & -> & _)].
    + exists blocks. auto.
    + exists (blocks ++ [b])%list. cbn [chain difficulty mining_reward].
      rewrite Hc, app_assoc. auto.
Qed.

Lemma history_block (address : string) (block : Block.t) (history : list history_entry) :
  fold_left
    (fun history transaction =>
       if get_is transaction "to" address || get_is transaction "from" address
       then (history ++ [HistoryEntry (Block.index block) transaction])%list
       else history)
    (Block.transactions block) history =
  (history ++ block_entries address block)%list.
Proof.
  unfold block_entries. revert history.
  induction (Block.transactions block) as [|t txs IH]; intros history.
  - cbn. rewrite app_nil_r. reflexivity.
  - cbn [fold_left List.filter]. rewrite IH.
    destruct (get_is t "to" address || get_is t "from" address).
    + cbn [map]. rewrite <- app_assoc. reflexivity.
    + reflexivity.
Qed.

Lemma history_chain (address : string) (c : list Block.t) (history : list history_entry) :
  fold_left
    (fun history block =>
       fold_left
         (fun history transaction =>
            if get_is transaction "to" address || get_is transaction "from" address
            then (history ++ [HistoryEntry (Block.index block) transaction])%list
            else history)
         (Block.transactions block) history)
    c history =
  (history ++ flat_map (block_entries address) c)%list.
Proof.
  revert history. induction c as [|block c IH]; intros history.
  - cbn. rewrite app_nil_r. reflexivity.
  - cbn [fold_left flat_map]. rewrite history_block, IH, <- app_assoc. reflexivity.
Qed.

Lemma history_flat_map (self : EnergyBlockchain.t) (address : string) :
  get_transaction_history self address = flat_map (block_entries address) (chain self).
Proof. unfold get_transaction_history. apply history_chain. Qed.

(** X1. The entries of a history are the chained transactions that touch the
    address, each with the index of its block; in a reachable ledger that
    index is the position of the block in the chain. *)
Theorem history_entries (self : EnergyBlockchain.t) (address : string) (i : Z) (t : tx) :
  reachable self ->
  In (HistoryEntry i t) (get_transaction_history self address) <->
  exists block,
    (0 <= i)%Z /\ chain self !! Z.to_nat i = Some block /\
    In t (Block.transactions block) /\
    (get_is t "to" address = true \/ get_is t "from" address = true).
Proof.
  intros Hr. pose proof (reachable_invariant _ _ Hr) as [_ _ _ Hidx].
  rewrite history_flat_map, in_flat_map. split.
  - intros (block & Hb & He). unfold block_entries in He.
    apply in_map_iff in He as (t' & Heq & Hf). injection Heq as Hi <-.
    apply filter_In in Hf as [Ht Htouch]. apply orb_true_iff in Htouch.
    apply list_elem_of_In, list_elem_of_lookup in Hb as [n Hn].
    pose proof (Hidx n block Hn) as Hin. exists block.
    rewrite <- Hi, Hin, Nat2Z.id. split; [lia|]. auto.
  - intros (block & Hi & Hn & Ht & Htouch). exists block.
    split; [apply list_elem_of_In, (list_elem_of_lookup_2 _ _ _ Hn)|].
    unfold block_entries. apply in_map_iff. exists t. split.
    + f_equal. rewrite (Hidx _ _ Hn). lia.
    + apply filter_In. split; [exact Ht | apply orb_true_iff, Htouch].
Qed.

Lemma replay_transaction_untouched {B : Type} (iadd isub : B -> value -> result B)
    (address : string) (x : B) (t : tx) :
  get_is t "to" address = false -> get_is t "from" address = false ->
  replay_transaction iadd isub address x t = Ok x.
Proof. unfold replay_transaction. intros -> ->. reflexivity. Qed.

Lemma replay_untouched (address : string) (x : float) (txs : list tx) :
  Forall (fun t => get_is t "to" address || get_is t "from" address = false) txs ->
  foldM (replay_transaction float_iadd float_isub address) x txs = Ok x.
Proof.
  induction 1 as [|t txs Ht _ IH]; [reflexivity|].
  apply orb_false_iff in Ht as [Hto Hfrom].
  cbn [foldM]. rewrite (replay_transaction_untouched _ _ _ _ _ Hto Hfrom).
  cbn [mbind result_bind]. exact IH.
Qed.

Lemma block_entries_nil (address : string) (block : Block.t) :
  block_entries address block = [] ->
  Forall (fun t => get_is t "to" address || get_is t "from" address = false)
         (Block.transactions block).
Proof.
  unfold block_entries. induction (Block.transactions block) as [|t txs IH]; [constructor|].
  cbn [List.filter]. destruct (get_is t "to" address || get_is t "from" address) eqn:E.
  - discriminate.
  - intros H. constructor; [exact E | apply IH, H].
Qed.

(** X2. An address with an empty history has the balance 0.0, and
    [get_balance] does not raise for it, whatever the chained records hold. *)
Theorem empty_history_zero_balance (self : EnergyBlockchain.t) (address : string) :
  get_transaction_history self address = [] ->
  get_balance self address = Ok 0%float.
Proof.
  rewrite history_flat_map. unfold get_balance, replay.
  generalize 0%float as x.
  induction (chain self) as [|block c IH]; intros x H; [reflexivity|].
  cbn [flat_map] in H. apply app_eq_nil in H as [Hb Hc].
  cbn [foldM]. rewrite (replay_untouched address x _ (block_entries_nil _ _ Hb)).
  cbn [mbind result_bind]. apply IH, Hc.
Qed.

(** X3. The chain is append-only. Whatever is submitted and sealed later,
    every block stays at its index, unchanged, and the difficulty and the
    mining reward stay as they are. *)
Theorem chain_append_only (self self' : EnergyBlockchain.t) :
  evolves self self' ->
  (forall i b, chain self !! i = Some b -> chain self' !! i = Some b) /\
  (length (chain self) <= length (chain self'))%nat /\
  difficulty self' = difficulty self /\
  mining_reward self' = mining_reward self.
Proof.
  intros He. apply evolves_chain in He as (blocks & -> & Hd & Hm).
  split; [|split; [rewrite length_app; lia | auto]].
  intros i b Hb. apply lookup_app_l_Some. exact Hb.
Qed.

(** X4. An error of [get_balance] is permanent. Once the replay raises for
    an address, it raises the same error after any further submissions and
    seals. *)
Theorem balance_error_permanent (self self' : EnergyBlockchain.t) (address : string)
    (e : exn) :
  get_balance self address = Raise e ->
  evolves self self' ->
  get_balance self' address = Raise e.
Proof.
  intros H He. apply evolves_chain in He as (blocks & Hc & _).
  unfold get_balance, replay in *. rewrite Hc, foldM_app, H. reflexivity.
Qed.


Lemma total_transactions_from (c : list Block.t) (n : nat) :
  fold_left (fun total block => (total + length (Block.transactions block))%nat) c n =
  (n + length (concat (map Block.transactions c)))%nat.
Proof.
  revert n. induction c as [|block c IH]; intros n; cbn [fold_left map concat].
  - cbn. lia.
  - rewrite IH, length_app. lia.
Qed.

(** X6. What a seal of a pool that is not empty does to the queries. The
    balance of an address becomes the old balance replayed further over the
    sealed pool; its history gains the entries of the pool, numbered with
    the old chain length; the total of chained transactions grows by the
    size of the pool; and the chain stays valid when it was. *)
Theorem seal_updates_queries (fuel : nat) (self self' : EnergyBlockchain.t)
    (miner_address now address : string) (r : option Block.t) :
  pending_transactions self <> [] ->
  mine_pending_transactions fuel self miner_address now = Ok (self', r) ->
  get_balance self' address =
    (get_balance self address ≫=
       fun balance => foldM (replay_transaction float_iadd float_isub address) balance
                            (pending_transactions self)) /\
  get_transaction_history self' address =
    (get_transaction_history self address ++
     map (HistoryEntry (Z.of_nat (length (chain self))))
         (List.filter (fun t => get_is t "to" address || get_is t "from" address)
                      (pending_transactions self)))%list /\
  total_transactions self' =
    (total_transactions self + length (pending_transactions self))%nat /\
  length (chain self') = S (length (chain self)).
Proof.
  intros Hp H.
  apply seal_Ok in H as [(Hnil & _)|(_ & latest & b & _ & Hb & -> & _)]; [contradiction|].
  apply mine_block_spec in Hb as (Hi & _ & Ht & _).
  cbn [Block.index Block.transactions Block.init Block.set_hash] in Hi, Ht.
  split; [|split; [|split]].
  - unfold get_balance, replay. cbn [chain]. rewrite foldM_app.
    destruct (foldM _ 0%float (chain self)) as [x| |]; cbn [mbind result_bind foldM];
      [|reflexivity..].
    rewrite Ht. destruct (foldM _ x (pending_transactions self)); reflexivity.
  - rewrite !history_flat_map. cbn [chain]. rewrite flat_map_app. cbn [flat_map].
    rewrite app_nil_r. unfold block_entries at 2. rewrite Hi, Ht. reflexivity.
  - unfold total_transactions. cbn [chain]. rewrite !total_transactions_from.
    rewrite map_app, concat_app, length_app. cbn [map concat]. rewrite app_nil_r, Ht. lia.
  - cbn [chain]. rewrite length_app. cbn. lia.
Qed.

Lemma bump_fields (k : nat) (b : Block.t) :
  Block.nonce (bump k b) = (Block.nonce b + Z.of_nat k)%Z /\
  Block.index (bump k b) = Block.index b /\
  Block.timestamp (bump k b) = Block.timestamp b /\
  Block.transactions (bump k b) = Block.transactions b /\
  Block.previous_hash (bump k b) = Block.previous_hash b.
Proof.
  revert b. induction k as [|k IH]; intros b; cbn [bump].
  - repeat split. lia.
  - destruct (IH (Block.set_hash (Block.set_nonce b (Block.nonce b + 1))
                    (Block.calculate_hash (Block.set_nonce b (Block.nonce b + 1)))))
      as (Hn & Hi & Ht & Htx & Hp).
    rewrite Hn, Hi, Ht, Htx, Hp. cbn [Block.nonce Block.index Block.timestamp
      Block.transactions Block.previous_hash Block.set_hash Block.set_nonce].
    repeat split. lia.
Qed.

Lemma mine_block_first (fuel : nat) (difficulty : Z) (b b' : Block.t) :
  Block.mine_block fuel difficulty b = Some b' ->
  exists k, (k <= fuel)%nat /\ b' = bump k b /\
            meets_target difficulty (bump k b) /\
            forall j, (j < k)%nat -> ~ meets_target difficulty (bump j b).
Proof.
  unfold meets_target. revert b. induction fuel as [|fuel IH]; intros b; cbn [Block.mine_block];
    destruct (String.eqb_spec (slice_to (Block.hash b) difficulty) (repeat "0" difficulty))
      as [E|E]; cbn [negb]; intros H; try discriminate.
  - injection H as <-. exists 0%nat. repeat split; [lia | exact E | lia].
  - injection H as <-. exists 0%nat. repeat split; [lia | exact E | lia].
  - apply IH in H as (k & Hk & -> & Hmeet & Hfirst). exists (S k).
    split; [lia|]. split; [reflexivity|]. split; [exact Hmeet|].
    intros [|j] Hj; [exact E | apply Hfirst; lia].
Qed.

(** X7. [mine_block] is a linear search for the first nonce. It returns
    exactly when one of the next [fuel] nonces gives a hash that meets the
    target, and then with the first such nonce, the other hashed fields
    untouched; more fuel gives the same block. *)
Theorem mine_block_first_nonce (fuel : nat) (difficulty : Z) (b b' : Block.t) :
  Block.mine_block fuel difficulty b = Some b' <->
  exists k,
    (k <= fuel)%nat /\ b' = bump k b /\
    Block.nonce b' = (Block.nonce b + Z.of_nat k)%Z /\
    meets_target difficulty b' /\
    (forall j, (j < k)%nat -> ~ meets_target difficulty (bump j b)) /\
    (forall fuel', (fuel <= fuel')%nat -> Block.mine_block fuel' difficulty b = Some b').
Proof.
  split.
  - intros H. apply mine_block_first in H as (k & Hk & -> & Hmeet & Hfirst).
    exists k. split; [exact Hk|]. split; [reflexivity|].
    split; [apply bump_fields|]. split; [exact Hmeet|]. split; [exact Hfirst|].
    intros fuel' Hf. apply mine_block_complete; [exact Hfirst | exact Hmeet | lia].
  - intros (k & Hk & -> & _ & Hmeet & Hfirst & _).
    apply mine_block_complete; assumption.
Qed.

Lemma reachable_settings (P : tx -> Prop) (self : EnergyBlockchain.t) :
  reachable_from P self ->
  mining_reward self = 1%float /\
  (pending_transactions self = [] -> length (chain self) = 1%nat) /\
  forall i b, chain self !! i = Some b ->
    (0 <= Block.nonce b)%Z /\ meets_target (difficulty self) b.
Proof.
  induction 1 as [fuel d now self H | self t Hr (IHm & IHp & IH) Pt
                 | fuel self miner now self' r Hr (IHm & IHp & IH) H].
  - apply init_Ok in H as (g & Hg & ->). cbn [chain mining_reward difficulty].
    apply mine_block_spec in Hg as (_ & _ & _ & _ & Hn & _ & Hz).
    split; [reflexivity|]. split; [reflexivity|].
    intros [|i] b Hb; [|destruct i; discriminate]. injection Hb as <-.
    split; [exact Hn | exact Hz].
  - split; [exact IHm|]. split; [|exact IH].
    cbn [add_transaction pending_transactions set_pending_transactions].
    intros Hnil. apply app_eq_nil in Hnil as [_ Hnil]. discriminate.
  - apply seal_Ok in H as [(_ & -> & _)|(_ & latest & b & Hl & Hb & -> & _)]; [auto|].
    cbn [chain mining_reward difficulty pending_transactions].
    apply mine_block_spec in Hb as (_ & _ & _ & _ & Hn & _ & Hz).
    split; [exact IHm|]. split; [discriminate|].
    intros i x Hx. apply lookup_snoc_Some in Hx as [[_ Hx]|[_ <-]]; [eauto|].
    split; [exact Hn | exact Hz].
Qed.

(** X8. Every block of a reachable chain carries its proof of work: its
    index is its position, its nonce is not negative, and its hash has
    [difficulty] leading zeros, the first block included. *)
Theorem reachable_proof_of_work (self : EnergyBlockchain.t) (i : nat) (b : Block.t) :
  reachable self ->
  chain self !! i = Some b ->
  Block.index b = Z.of_nat i /\
  (0 <= Block.nonce b)%Z /\
  Block.hash b = Block.calculate_hash b /\
  leading_zeros (difficulty self) (Block.hash b).
Proof.
  intros Hr Hb. pose proof (reachable_invariant _ _ Hr) as [_ _ Hh Hi].
  destruct (reachable_settings _ _ Hr) as (_ & _ & Hw).
  destruct (Hw i b Hb) as [Hn Hz].
  split; [eauto|]. split; [exact Hn|]. split; [eauto|]. apply slice_to_zeros, Hz.
Qed.

(** X9. The pool of a reachable ledger is empty only before the first
    submission: then the chain is the first block alone. After a
    submission the pool is never empty again, since a seal leaves the
    reward record in it. *)
Theorem empty_pool_only_fresh (self self' : EnergyBlockchain.t) (transaction : tx) :
  reachable self ->
  (pending_transactions self = [] -> length (chain self) = 1%nat) /\
  (evolves (add_transaction self transaction) self' -> pending_transactions self' <> []).
Proof.
  intros Hr. split; [apply (reachable_settings _ _ Hr)|].
  intros He. remember (add_transaction self transaction) as start eqn:Hs.
  induction He as [|self' t He IH|fuel self' miner now self'' r He IH H].
  - subst start. cbn [add_transaction pending_transactions set_pending_transactions].
    intros Hnil. apply app_eq_nil in Hnil as [_ Hnil]. discriminate.
  - cbn [add_transaction pending_transactions set_pending_transactions].
    intros Hnil. apply app_eq_nil in Hnil as [_ Hnil]. discriminate.
  - apply seal_Ok in H as [(Hnil & _ & _)|(_ & latest & b & _ & _ & -> & _)].
    + exfalso. exact (IH Hnil).
    + discriminate.
Qed.

(** X10. [is_chain_valid] checks no proof of work and nothing beyond the
    last link: in a reachable ledger the last block can be replaced by any
    block that keeps its [previous_hash] and carries a freshly computed
    hash, mined or not, and the chain still passes. *)
Theorem rehashed_tip_passes (self : EnergyBlockchain.t) (n : nat) (b b' : Block.t) :
  reachable self ->
  S n = length (chain self) ->
  chain self !! n = Some b ->
  Block.previous_hash b' = Block.previous_hash b ->
  Block.hash b' = Block.calculate_hash b' ->
  is_chain_valid (tamper self n b') = true.
Proof.
  intros Hr Hlen Hb Hprev Hhash.
  pose proof (reachable_invariant _ _ Hr) as [_ Hl Hh _].
  apply is_chain_valid_true. unfold tamper. cbn [chain set_chain].
  rewrite length_insert. intros i [Hi Hlt].
  destruct (lookup_lt_is_Some_2 (chain self) i) as [cur Hc]; [lia|].
  destruct (lookup_lt_is_Some_2 (chain self) (i - 1)) as [prev Hp]; [lia|].
  assert (Hlink : Block.previous_hash cur = Block.hash prev).
  { apply (Hl (i - 1)%nat); [|exact Hp]. replace (S (i - 1)) with i by lia. exact Hc. }
  assert (Hp' : <[n := b']> (chain self) !! (i - 1)%nat = Some prev)
    by (rewrite list_lookup_insert_ne by lia; exact Hp).
  destruct (decide (i = n)) as [->|Hne].
  - assert (Hc' : <[n := b']> (chain self) !! n = Some b')
      by (apply list_lookup_insert_eq; lia).
    rewrite (check_block_true _ _ _ _ Hc' Hp'). split; [exact Hhash|].
    rewrite Hprev. congruence.
  - assert (Hc' : <[n := b']> (chain self) !! i = Some cur)
      by (rewrite list_lookup_insert_ne by lia; exact Hc).
    rewrite (check_block_true _ _ _ _ Hc' Hp'). split; [eauto | exact Hlink].
Qed.


(** X12. [mine_pending_transactions] raises [IndexError] exactly when the
    chain is empty and the pool is not: [get_latest_block] reads
    [chain[-1]] while the arguments of the new block are evaluated. So the
    call never raises [IndexError] on a reachable ledger, whose chain
    holds at least the first block. *)
Theorem seal_index_error (fuel : nat) (self : EnergyBlockchain.t)
    (miner_address now : string) :
  (mine_pending_transactions fuel self miner_address now = Raise IndexError <->
   chain self = [] /\ pending_transactions self <> []) /\
  (reachable self ->
   mine_pending_transactions fuel self miner_address now <> Raise IndexError).
Proof.
  assert (Hiff : mine_pending_transactions fuel self miner_address now = Raise IndexError <->
                 chain self = [] /\ pending_transactions self <> []).
  { unfold mine_pending_transactions, get_latest_block. split.
    - destruct (pending_transactions self) as [|t p]; [discriminate|].
      destruct (last (chain self)) as [latest|] eqn:El.
      + cbn [mbind result_bind].
        destruct (Block.mine_block fuel (difficulty self) _) as [b|];
          cbn [of_option mbind result_bind]; discriminate.
      + intros _. apply last_None in El. split; [exact El | discriminate].
    - intros [Hc Hp]. destruct (pending_transactions self) as [|t p]; [contradiction|].
      rewrite Hc. reflexivity. }
  split; [exact Hiff|].
  intros Hr H. apply Hiff in H as [Hc _].
  pose proof (reachable_invariant _ _ Hr) as [(g & Hg & _) _ _ _].
  rewrite Hc in Hg. discriminate Hg.
Qed.


Transparent SHA256.hexdigest.
Lemma length_append (s1 s2 : string) :
  String.length (s1 +:+ s2) = (String.length s1 + String.length s2)%nat.
Proof.
  induction s1 as [|c s1 IH]; [reflexivity|].
  change (S (String.length (s1 +:+ s2)) = S (String.length s1 + String.length s2)).
  f_equal. exact IH.
Qed.

Lemma compress_length (h block : list int) :
  length (SHA256.compress h block) = length h.
Proof.
  unfold SHA256.compress.
  destruct h as [|a [|b [|c [|d [|e [|f [|g [|hh [|i h]]]]]]]]]; reflexivity.
Qed.

Lemma digest_length (msg : list int) : length (SHA256.digest msg) = 8%nat.
Proof.
  unfold SHA256.digest.
  generalize (SHA256.chunks (length (SHA256.words_of_bytes (SHA256.pad msg)))
                            (SHA256.words_of_bytes (SHA256.pad msg))).
  intros l. change 8%nat with (length SHA256.H0). generalize SHA256.H0.
  induction l as [|block l IH]; intros h; cbn [fold_left]; [reflexivity|].
  rewrite IH. apply compress_length.
Qed.

Lemma hex_of_word_length (w : int) : String.length (SHA256.hex_of_word w) = 8%nat.
Proof. reflexivity. Qed.

(** a SHA-256 digest in hexadecimal has 64 characters *)
Lemma hexdigest_length (s : string) : String.length (SHA256.hexdigest s) = 64%nat.
Proof.
  unfold SHA256.hexdigest. pose proof (digest_length (SHA256.encode s)) as H.
  destruct (SHA256.digest (SHA256.encode s))
    as [|a [|b [|c [|d [|e [|f [|g [|hh [|i h]]]]]]]]]; try discriminate H.
  cbn [map String.concat]. rewrite !length_append, !hex_of_word_length. reflexivity.
Qed.

Opaque SHA256.hexdigest.

Lemma bump_hash_length (k : nat) (b : Block.t) :
  String.length (Block.hash b) = 64%nat -> String.length (Block.hash (bump k b)) = 64%nat.
Proof.
  revert b. induction k as [|k IH]; intros b H; cbn [bump]; [exact H|].
  apply IH. apply hexdigest_length.
Qed.

Lemma target_unmet (difficulty : Z) (h : string) :
  String.length h = 64%nat ->
  (64 < difficulty \/ -64 < difficulty < 0)%Z ->
  slice_to h difficulty <> repeat "0" difficulty.
Proof.
  intros Hlen Hd Heq. unfold slice_to, repeat in Heq. rewrite Hlen in Heq.
  destruct Hd as [Hd|Hd].
  - destruct (difficulty <? 0)%Z eqn:E; [apply Z.ltb_lt in E; lia|].
    assert (Hz : String.get 64 (String.concat "" (replicate (Z.to_nat difficulty) "0"))
                 = Some "0"%char) by (apply get_zeros; lia).
    rewrite <- Heq, String.substring_correct2 in Hz by lia. discriminate.
  - destruct (difficulty <? 0)%Z eqn:E; [|apply Z.ltb_ge in E; lia].
    replace (Z.to_nat difficulty) with 0%nat in Heq by lia.
    assert (Hg : String.get 0 (String.substring 0 (Z.to_nat (Z.max 0 (Z.of_nat 64 + difficulty))) h)
                 = String.get 0 h).
    { rewrite String.substring_correct1 by lia. reflexivity. }
    rewrite Heq in Hg. destruct h; discriminate.
Qed.

(** X14. The difficulties that [mine_block] cannot meet. A digest has 64
    characters, so with a difficulty from 65 to 1000000, or from -63 to -1,
    the loop is still running after any number of steps below [10 ^ 4300]
    on a block that the constructor built, and so is the constructor of
    the ledger; with a difficulty from [- 2 ^ 63] to -64 the loop ends at
    once, as it does with 0. The bounds keep to what Python computes
    without error: the target ['0' * difficulty] is built (a count outside
    [- 2 ^ 63 .. 2 ^ 63 - 1] raises [OverflowError], a target too long for
    the memory [MemoryError]), and the block and its nonces are written by
    [json.dumps] ([plain_block]; an [int] of more than 4300 digits raises
    [ValueError]). *)
Theorem unmeetable_difficulty (fuel : nat) (difficulty index : Z) (timestamp : string)
    (transactions : list tx) (previous_hash : string) :
  let b := Block.init index timestamp transactions previous_hash in
  plain_block b ->
  (Z.of_nat fuel < 10 ^ 4300)%Z ->
  ((64 < difficulty <= 1000000 \/ -64 < difficulty < 0)%Z ->
   Block.mine_block fuel difficulty b = None /\
   EnergyBlockchain.init fuel difficulty timestamp = Diverge) /\
  ((- 2 ^ 63 <= difficulty <= -64)%Z -> Block.mine_block fuel difficulty b = Some b).
Proof.
  intros b _ _. split.
  - intros Hd'. assert (Hd : (64 < difficulty \/ -64 < difficulty < 0)%Z) by lia. clear Hd'.
    assert (Hnone : forall fuel b, String.length (Block.hash b) = 64%nat ->
                                   Block.mine_block fuel difficulty b = None).
    { clear fuel b. induction fuel as [|fuel IH]; intros b Hlen; cbn [Block.mine_block];
        destruct (String.eqb_spec (slice_to (Block.hash b) difficulty) (repeat "0" difficulty))
          as [E|E]; cbn [negb]; try reflexivity;
        try (exfalso; exact (target_unmet difficulty _ Hlen Hd E)).
      apply IH. apply hexdigest_length. }
    split; [apply Hnone, hexdigest_length|].
    unfold EnergyBlockchain.init, create_genesis_block. cbn [EnergyBlockchain.difficulty].
    rewrite Hnone by apply hexdigest_length. reflexivity.
  - intros Hd. apply mine_block_done. unfold slice_to, repeat.
    change (Block.hash b) with (Block.calculate_hash
      (Block.mk index timestamp transactions previous_hash 0 "")).
    unfold Block.calculate_hash. rewrite hexdigest_length.
    destruct (difficulty <? 0)%Z eqn:E; [|apply Z.ltb_ge in E; lia].
    replace (Z.to_nat (Z.max 0 (Z.of_nat 64 + difficulty))) with 0%nat by lia.
    replace (Z.to_nat difficulty) with 0%nat by lia.
    destruct (SHA256.hexdigest _); reflexivity.
Qed.

Lemma reachable_pool_records (P : tx -> Prop) (self : EnergyBlockchain.t) :
  reachable_from P self ->
  forall t, In t (all_transactions self) ->
            P t \/ exists miner_address, t = reward_transaction self miner_address.
Proof.
  induction 1 as [fuel d now self H | self t Hr IH Pt
                 | fuel self miner now self' r Hr IH H].
  - apply init_Ok in H as (g & Hg & ->).
    apply mine_block_spec in Hg as (_ & _ & Hgt & _).
    intros t Ht. apply in_all_transactions in Ht as [[]|(block & [<-|[]] & Ht)].
    rewrite Hgt in Ht. destruct Ht.
  - intros t' Ht'. apply in_all_transactions in Ht' as [Hp|Hc].
    + cbn [add_transaction pending_transactions set_pending_transactions] in Hp.
      apply in_app_iff in Hp as [Hp|[<-|[]]]; [|left; exact Pt].
      apply (IH t'), in_all_transactions. left. exact Hp.
    + apply (IH t'), in_all_transactions. right. exact Hc.
  - apply seal_Ok in H as [(_ & -> & _)|(_ & latest & b & Hl & Hb & -> & _)];
      [assumption|].
    apply mine_block_spec in Hb as (_ & _ & Hbt & _).
    intros t Ht. apply in_all_transactions in Ht as [Hp|(block & Hblock & Ht)].
    + destruct Hp as [<-|[]]. right. exists miner. reflexivity.
    + cbn [chain] in Hblock. apply in_app_iff in Hblock as [Hblock|[<-|[]]].
      * destruct (IH t) as [He|[m ->]]; [| left; exact He | right; exists m; reflexivity].
        apply in_all_transactions. right. eauto.
      * rewrite Hbt in Ht. cbn [Block.transactions Block.init Block.set_hash] in Ht.
        destruct (IH t) as [He|[m ->]]; [| left; exact He | right; exists m; reflexivity].
        apply in_all_transactions. left. exact Ht.
Qed.

(** X15. The ledgers the program builds are closed. When only contract
    records with a finite total cost are submitted, every chained record is
    such a record or a reward, so for a duplicate-free list that covers the
    addresses of the chain (the [network] of the rewards included) the
    exact balances sum to zero. *)
Theorem contract_ledger_conserves (self : EnergyBlockchain.t) (addresses : list string) :
  reachable_from executed_finite self ->
  NoDup addresses ->
  covers addresses self ->
  Forall (fun block => Forall (closed_transaction addresses) (Block.transactions block))
         (chain self) /\
  sum_balances_exact self addresses = Ok (Q2Qc 0).
Proof.
  intros Hr Hnd Hcov.
  assert (Hclosed : Forall (fun block => Forall (closed_transaction addresses)
                                           (Block.transactions block)) (chain self)).
  { destruct (reachable_settings _ _ Hr) as (Hreward & _).
    pose proof (reachable_pool_records _ _ Hr) as Hrec.
    unfold covers in Hcov. rewrite List.Forall_forall in Hcov |- *.
    intros block Hblock. specialize (Hcov block Hblock).
    rewrite List.Forall_forall in Hcov |- *. intros t Ht.
    specialize (Hcov t Ht).
    destruct (Hrec t) as [(c & -> & [q Hq])|[m ->]].
    - apply in_all_transactions. right. eauto.
    - exists (SmartContract.producer c), (SmartContract.consumer c), q.
      split; [reflexivity|]. split; [reflexivity|].
      split; [apply (Hcov "from"); [left|]; reflexivity|].
      split; [apply (Hcov "to"); [right|]; reflexivity|].
      change (exact_value (VFloat (SmartContract.energy_kwh c * SmartContract.price c))
              = Ok q).
      cbn [exact_value]. rewrite Hq. reflexivity.
    - exists "network", m. eexists.
      split; [reflexivity|]. split; [reflexivity|].
      split; [apply (Hcov "from"); [left|]; reflexivity|].
      split; [apply (Hcov "to"); [right|]; reflexivity|].
      unfold reward_transaction. rewrite Hreward. reflexivity. }
  split; [exact Hclosed | apply exact_balance_conservation; assumption].
Qed.

(** X16. The run of [main]. For all readings of the clock, once the three
    proof-of-work searches at difficulty 2 come back, [main] reports a
    valid chain of 3 blocks holding 4 transactions (the two first trades,
    then the reward of the first validator and the third trade; the reward
    of the second validator stays in the pool), and labels both producers
    [Cost] and the three consumers [Revenue]. *)
Theorem main_report (fuel : nat) (t0 t1 t2 t3 t4 t5 : string) (g b1 b2 : Block.t) :
  let transaction1 :=
    snd (SmartContract.execute
           (SmartContract.init "SC001" "Solar_Panel_A" "Home_User_1" 25.5 0.12 t1)) in
  let transaction2 :=
    snd (SmartContract.execute
           (SmartContract.init "SC002" "Solar_Panel_B" "Business_User_1" 150 0.10 t2)) in
  let transaction3 :=
    snd (SmartContract.execute
           (SmartContract.init "SC003" "Solar_Panel_A" "Home_User_2" 35 0.11 t3)) in
  let ledger0 := EnergyBlockchain.mk [g] [] 2 1 in
  Block.mine_block fuel 2 (Block.init 0 t0 [] "0") = Some g ->
  Block.mine_block fuel 2
    (Block.init 1 t4 [transaction1; transaction2] (Block.hash g)) = Some b1 ->
  Block.mine_block fuel 2
    (Block.init 2 t5 [reward_transaction ledger0 "Validator_Node_1"; transaction3]
                (Block.hash b1)) = Some b2 ->
  Main.main fuel t0 t1 t2 t3 t4 t5 =
  Ok (Main.Report true
        [("Solar_Panel_A", (-6.91)%float, "Cost");
         ("Solar_Panel_B", (-15)%float, "Cost");
         ("Home_User_1", 3.06%float, "Revenue");
         ("Home_User_2", 3.85%float, "Revenue");
         ("Business_User_1", 15%float, "Revenue")]
        3 4 2).
Proof.
  intros transaction1 transaction2 transaction3 ledger0 Hg Hb1 Hb2.
  set (pool1 := add_transaction (add_transaction ledger0 transaction1) transaction2).
  set (ledger1 := EnergyBlockchain.mk [g; b1] [reward_transaction ledger0 "Validator_Node_1"]
                                      2 1%float).
  set (pool2 := add_transaction ledger1 transaction3).
  set (ledger2 := EnergyBlockchain.mk [g; b1; b2]
                    [reward_transaction ledger0 "Validator_Node_2"] 2 1%float).
  assert (H0 : EnergyBlockchain.init fuel 2 t0 = Ok ledger0).
  { unfold EnergyBlockchain.init, create_genesis_block. cbn [difficulty].
    rewrite Hg. reflexivity. }
  assert (H1 : mine_pending_transactions fuel pool1 "Validator_Node_1" t4 = Ok (ledger1, None)).
  { apply (seal_nonempty fuel pool1 "Validator_Node_1" t4 g b1);
      [discriminate | reflexivity | exact Hb1]. }
  assert (H2 : mine_pending_transactions fuel pool2 "Validator_Node_2" t5 = Ok (ledger2, None)).
  { apply (seal_nonempty fuel pool2 "Validator_Node_2" t5 b1 b2);
      [discriminate | reflexivity | exact Hb2]. }
  assert (Hr : reachable ledger2).
  { eapply reachable_seal; [|exact H2]. apply reachable_submit; [|exact I].
    eapply reachable_seal; [|exact H1]. do 2 (apply reachable_submit; [|exact I]).
    eapply reachable_init. exact H0. }
  assert (Hvalid : is_chain_valid ledger2 = true)
    by (apply invariant_valid, (reachable_invariant _ _ Hr)).
  apply mine_block_spec in Hg as (_ & _ & Hgt & _).
  apply mine_block_spec in Hb1 as (_ & _ & Hbt1 & _).
  apply mine_block_spec in Hb2 as (_ & _ & Hbt2 & _).
  cbn [Block.transactions Block.init Block.set_hash] in Hgt, Hbt1, Hbt2.
  transitivity
    (l0 ← EnergyBlockchain.init fuel 2 t0;
     s1 ← mine_pending_transactions fuel
            (add_transaction (add_transaction l0 transaction1) transaction2)
            "Validator_Node_1" t4;
     s2 ← mine_pending_transactions fuel (add_transaction (fst s1) transaction3)
            "Validator_Node_2" t5;
     lines ← Main.account_balances (fst s2) Main.accounts;
     Ok (Main.Report (is_chain_valid (fst s2)) lines (length (chain (fst s2)))
                     (total_transactions (fst s2)) (difficulty (fst s2))));
    [reflexivity|].
  subst pool1 pool2. rewrite H0. cbn [mbind result_bind].
  rewrite H1. cbn [mbind result_bind fst].
  rewrite H2. cbn [mbind result_bind fst]. rewrite Hvalid.
  unfold Main.accounts, Main.account_balances, get_balance, replay, total_transactions.
  subst ledger2. cbn [chain foldM fold_left length difficulty].
  rewrite Hgt, Hbt1, Hbt2. reflexivity.
Qed.

(** X17. What [is_chain_valid] checks, on any ledger, reachable or not: it
    answers [true] exactly when every block after the first stores the
    digest of its own fields as [hash] and the stored hash of the block
    before it as [previous_hash]. Nothing else is read: a chain that is
    empty or has one block always passes. *)
Theorem is_chain_valid_spec (self : EnergyBlockchain.t) :
  (is_chain_valid self = true <->
   forall i current_block previous_block,
     chain self !! S i = Some current_block ->
     chain self !! i = Some previous_block ->
     Block.hash current_block = Block.calculate_hash current_block /\
     Block.previous_hash current_block = Block.hash previous_block) /\
  ((length (chain self) <= 1)%nat -> is_chain_valid self = true).
Proof.
  split.
  - rewrite is_chain_valid_true. split.
    + intros H i cur prev Hc Hp.
      assert (Hi : (1 <= S i < length (chain self))%nat).
      { apply lookup_lt_Some in Hc. lia. }
      specialize (H (S i) Hi).
      assert (Hp' : chain self !! (S i - 1)%nat = Some prev).
      { replace (S i - 1)%nat with i by lia. exact Hp. }
      apply (check_block_true _ _ _ _ Hc Hp'). exact H.
    + intros H i Hi.
      destruct (lookup_lt_is_Some_2 (chain self) i) as [cur Hc]; [lia|].
      destruct (lookup_lt_is_Some_2 (chain self) (i - 1)) as [prev Hp]; [lia|].
      rewrite (check_block_true _ _ _ _ Hc Hp). apply (H (i - 1)%nat); [|exact Hp].
      replace (S (i - 1)) with i by lia. exact Hc.
  - intros Hlen. apply is_chain_valid_true. intros i Hi. lia.
Qed.

(** ** The further properties on the concrete runs *)

Lemma sealed_evolves : evolves Demo.fresh Demo.sealed.
Proof.
  apply (evolves_seal _ 100%nat (add_transaction Demo.fresh Demo.trade) "M" Demo.now1
           Demo.sealed None); [apply evolves_submit, evolves_refl | exact sealed_seal].
Qed.

Lemma sealed_again_seal :
  mine_pending_transactions 100 (add_transaction Demo.sealed Demo.trade) "N" Runs.now2 =
  Ok (Runs.sealed_again, None).
Proof. vm_compute. reflexivity. Qed.

Lemma trade_executed_finite : executed_finite Demo.trade.
Proof.
  exists Demo.contract. split; [reflexivity|]. eexists. vm_compute. reflexivity.
Qed.

Lemma sealed_again_reachable (P : tx -> Prop) :
  P Demo.trade -> reachable_from P Runs.sealed_again.
Proof.
  intros Ht. eapply reachable_seal; [|exact sealed_again_seal].
  apply reachable_submit; [apply sealed_reachable, Ht | exact Ht].
Qed.

Lemma history_entries_witness :
  In (HistoryEntry 1 Demo.trade) (get_transaction_history Demo.sealed "B").
Proof.
  apply (proj2 (history_entries Demo.sealed "B" 1 Demo.trade (sealed_reachable _ I))).
  exists Demo.sealed_block.
  split; [lia|]. split; [vm_compute; reflexivity|].
  split; [left; vm_compute; reflexivity | left; vm_compute; reflexivity].
Defined.

Lemma empty_history_zero_balance_witness :
  get_balance Runs.poisoned "A" = Ok 0%float /\
  get_balance Runs.poisoned "B" = Raise TypeError.
Proof.
  split; [|vm_compute; reflexivity].
  apply (empty_history_zero_balance Runs.poisoned "A"). vm_compute. reflexivity.
Defined.

Lemma chain_append_only_witness :
  chain Demo.sealed !! 0%nat = Some Demo.sealed_genesis /\
  difficulty Demo.sealed = difficulty Demo.fresh.
Proof.
  destruct (chain_append_only Demo.fresh Demo.sealed sealed_evolves) as (H & _ & Hd & _).
  split; [apply H; vm_compute; reflexivity | exact Hd].
Defined.

Lemma balance_error_permanent_witness :
  get_balance Runs.poisoned_later "B" = Raise TypeError.
Proof.
  apply (balance_error_permanent Runs.poisoned Runs.poisoned_later "B" TypeError).
  - vm_compute. reflexivity.
  - apply (evolves_seal _ 0%nat (add_transaction Runs.poisoned Demo.gift) "M" Demo.now1
             Runs.poisoned_later None); [apply evolves_submit, evolves_refl|].
    vm_compute. reflexivity.
Defined.


Lemma seal_updates_queries_witness :
  get_balance Demo.sealed "B" = Ok 5%float /\
  get_transaction_history Demo.sealed "B" = [HistoryEntry 1 Demo.trade] /\
  total_transactions Demo.sealed = 1%nat.
Proof.
  destruct (seal_updates_queries 100 (add_transaction Demo.fresh Demo.trade) Demo.sealed
              "M" Demo.now1 "B" None) as (Hb & Hh & Ht & _).
  - intros H. apply (f_equal (@length tx)) in H. discriminate H.
  - exact sealed_seal.
  - split; [rewrite Hb; vm_compute; reflexivity|].
    split; [rewrite Hh; vm_compute; reflexivity | rewrite Ht; reflexivity].
Defined.

Lemma mine_block_first_nonce_witness :
  exists k,
    (k <= 100)%nat /\ Demo.sealed_genesis = bump k Demo.genesis /\
    Block.nonce Demo.sealed_genesis = (Block.nonce Demo.genesis + Z.of_nat k)%Z /\
    meets_target 1 Demo.sealed_genesis /\
    (forall j, (j < k)%nat -> ~ meets_target 1 (bump j Demo.genesis)) /\
    (forall fuel', (100 <= fuel')%nat ->
                   Block.mine_block fuel' 1 Demo.genesis = Some Demo.sealed_genesis).
Proof.
  apply (proj1 (mine_block_first_nonce 100 1 Demo.genesis Demo.sealed_genesis)).
  vm_compute. reflexivity.
Defined.

Lemma reachable_proof_of_work_witness :
  Block.index Demo.sealed_block = Z.of_nat 1 /\
  (0 <= Block.nonce Demo.sealed_block)%Z /\
  Block.hash Demo.sealed_block = Block.calculate_hash Demo.sealed_block /\
  leading_zeros (difficulty Demo.sealed) (Block.hash Demo.sealed_block).
Proof.
  apply (reachable_proof_of_work Demo.sealed 1 Demo.sealed_block (sealed_reachable _ I)).
  vm_compute. reflexivity.
Defined.

Lemma empty_pool_only_fresh_witness :
  length (chain Demo.fresh) = 1%nat /\ pending_transactions Demo.sealed <> [].
Proof.
  destruct (empty_pool_only_fresh Demo.fresh Demo.sealed Demo.trade (fresh_reachable _))
    as [Hfresh Hlater].
  split; [apply Hfresh; reflexivity|].
  apply Hlater.
  apply (evolves_seal _ 100%nat (add_transaction Demo.fresh Demo.trade) "M" Demo.now1
           Demo.sealed None); [apply evolves_refl | exact sealed_seal].
Defined.

Lemma rehashed_tip_passes_witness :
  is_chain_valid (tamper Demo.sealed 1 Runs.rehashed_block) = true /\
  String.get 0 (Block.hash Runs.rehashed_block) = Some "5"%char.
Proof.
  split; [|reflexivity].
  apply (rehashed_tip_passes Demo.sealed 1 Demo.sealed_block Runs.rehashed_block
           (sealed_reachable _ I)).
  - reflexivity.
  - vm_compute. reflexivity.
  - vm_compute. reflexivity.
  - vm_compute. reflexivity.
Defined.


Lemma seal_index_error_witness :
  mine_pending_transactions 0 (EnergyBlockchain.mk [] [Demo.trade] 1 1) "M" Demo.now1 =
  Raise IndexError /\
  mine_pending_transactions 0 (add_transaction Demo.fresh Demo.trade) "M" Demo.now1 <>
  Raise IndexError.
Proof.
  split.
  - apply (seal_index_error 0 (EnergyBlockchain.mk [] [Demo.trade] 1 1) "M" Demo.now1).
    split; [reflexivity|]. intros H. apply (f_equal (@length tx)) in H. discriminate H.
  - apply (seal_index_error 0 (add_transaction Demo.fresh Demo.trade) "M" Demo.now1).
    apply reachable_submit; [apply fresh_reachable | exact I].
Defined.


Lemma unmeetable_difficulty_witness :
  Block.mine_block 1000 65 Demo.genesis = None /\
  EnergyBlockchain.init 1000 (-1) Demo.now0 = Diverge /\
  Block.mine_block 0 (-64) Demo.genesis = Some Demo.genesis.
Proof.
  assert (Hp : plain_block (Block.init 0 Demo.now0 [] "0"))
    by (apply small_blockb_spec; vm_compute; reflexivity).
  split; [|split].
  - apply (unmeetable_difficulty 1000 65 0 Demo.now0 [] "0" Hp);
      [apply below_limit; reflexivity | lia].
  - apply (unmeetable_difficulty 1000 (-1) 0 Demo.now0 [] "0" Hp);
      [apply below_limit; reflexivity | lia].
  - apply (unmeetable_difficulty 0 (-64) 0 Demo.now0 [] "0" Hp);
      [apply below_limit; reflexivity | lia].
Defined.

Lemma contract_ledger_conserves_witness :
  sum_balances_exact Runs.sealed_again ["network"; "M"; "A"; "B"] = Ok (Q2Qc 0).
Proof.
  apply (contract_ledger_conserves Runs.sealed_again ["network"; "M"; "A"; "B"]).
  - apply sealed_again_reachable, trade_executed_finite.
  - apply (bool_decide_unpack _). vm_compute. exact I.
  - cbv [covers Runs.sealed_again chain Block.transactions]. each_transaction.
    all: intros k a [->| ->] H; vm_compute in H; injection H as <-.
    all: apply list_elem_of_In; cbn; tauto.
Defined.

Lemma main_report_witness :
  Main.main 10 Runs.t0 Runs.t1 Runs.t2 Runs.t3 Runs.t4 Runs.t5 =
  Ok (Main.Report true
        [("Solar_Panel_A", (-6.91)%float, "Cost");
         ("Solar_Panel_B", (-15)%float, "Cost");
         ("Home_User_1", 3.06%float, "Revenue");
         ("Home_User_2", 3.85%float, "Revenue");
         ("Business_User_1", 15%float, "Revenue")]
        3 4 2).
Proof.
  apply (main_report 10 Runs.t0 Runs.t1 Runs.t2 Runs.t3 Runs.t4 Runs.t5
           Runs.main_genesis Runs.main_block1 Runs.main_block2).
  - vm_compute. reflexivity.
  - vm_compute. reflexivity.
  - vm_compute. reflexivity.
Defined.
